(** * uptane_banners / uptane_sounds: a shallow embedding and its properties

    The two Python modules of the repository are embedded as Rocq functions:
    - [Str]       Python [str] values and the string methods the code calls;
    - [Textwrap]  [textwrap.wrap] of the Python standard library, which
                  [print_banner] calls with its default options;
    - [World]     the observable effects (terminal output, sleeping, child
                  processes) and the exceptions, as a writer/error monad;
    - [Banners]   src/uptane_banners.py;
    - [Sounds]    src/uptane_sounds.py.

    Python integers are [Z]; a Python [str] is a list of characters, a
    character being a code point below 256 ([ascii]); [len] is therefore the
    number of code points, as in Python.  The terminal size that
    [get_screen_size] reads, and the PATH variable and the file tests that
    [_on_path] reads, are inputs of the model, and so are the answers of the
    operating system to a sleep and to the start of a child process; a hold
    duration is a whole number of seconds; [time.sleep] is the one of
    CPython 3.11. *)

From Stdlib Require Import String Ascii ZArith List Bool Lia.
Import ListNotations.

Local Open Scope Z_scope.

(* ====================================================================== *)
(** ** Python strings *)
(* ====================================================================== *)

Module Str.

Definition str := list ascii.

(** A literal. *)
Definition lit (s : string) : str := list_ascii_of_string s.

(** [len(s)] *)
Definition len {A : Type} (s : list A) : Z := Z.of_nat (length s).

(** [n * s]: repetition; a count that is zero or negative gives the empty
    string. *)
Definition mul (n : Z) (s : str) : str := concat (repeat s (Z.to_nat n)).

Definition space : ascii := " "%char.
Definition hyphen : ascii := "-"%char.
Definition newline : ascii := "010"%char.
Definition tab : ascii := "009"%char.
Definition carriage_return : ascii := "013"%char.

Definition code (c : ascii) : N := N_of_ascii c.

Definition in_range (lo hi : N) (c : ascii) : bool :=
  (N.leb lo (code c) && N.leb (code c) hi)%bool.

(** [c.isspace()] for the code points below 256: this is the set that
    [str.strip()] without argument removes. *)
Definition isspace (c : ascii) : bool :=
  (in_range 9 13 c || in_range 28 32 c || in_range 133 133 c
   || in_range 160 160 c)%bool.

(** [s.strip() == ''] *)
Definition is_blank (s : str) : bool := forallb isspace s.

(** The index a slice bound [e] denotes in a sequence of length [n]: a
    negative bound counts from the end, and the result is clamped to
    [0 .. n]. *)
Definition slice_index (e : Z) (n : nat) : nat :=
  Z.to_nat (if e <? 0 then Z.max 0 (e + Z.of_nat n) else e).

(** [s[:e]] and [s[e:]] *)
Definition slice_to (e : Z) (s : str) : str := firstn (slice_index e (length s)) s.
Definition slice_from (e : Z) (s : str) : str := skipn (slice_index e (length s)) s.

(** [s.rfind(c)] for a single character: the highest index holding [c], or
    [-1].  The first character of [s] has index [i]. *)
Fixpoint rfind_from (c : ascii) (i : Z) (s : str) : Z :=
  match s with
  | [] => -1
  | x :: r =>
      let later := rfind_from c (i + 1) r in
      if 0 <=? later then later
      else if Ascii.eqb x c then i else -1
  end.

(** [s.rfind(c, 0, e)], which for a one-character needle is [s[:e].rfind(c)]. *)
Definition rfind (c : ascii) (e : Z) (s : str) : Z :=
  rfind_from c 0 (slice_to e s).

(** [s.split(sep)] for a one-character separator: always at least one piece.
    [cur] is the piece being read, reversed. *)
Fixpoint split_pieces (sep : ascii) (cur : str) (s : str) : list str :=
  match s with
  | [] => [rev cur]
  | c :: r =>
      if Ascii.eqb c sep then rev cur :: split_pieces sep [] r
      else split_pieces sep (c :: cur) r
  end.

Definition split (sep : ascii) (s : str) : list str := split_pieces sep [] s.

(** [s.strip(c)] for a one-character argument. *)
Fixpoint lstrip (c : ascii) (s : str) : str :=
  match s with
  | x :: r => if Ascii.eqb x c then lstrip c r else s
  | [] => []
  end.

Definition strip (c : ascii) (s : str) : str :=
  rev (lstrip c (rev (lstrip c s))).

(** [s.expandtabs(tabsize)] for a positive [tabsize]: the column restarts
    after a newline or a carriage return. *)
Fixpoint expandtabs_from (tabsize : Z) (line_pos : Z) (s : str) : str :=
  match s with
  | [] => []
  | c :: r =>
      if Ascii.eqb c tab then
        let incr := tabsize - line_pos mod tabsize in
        mul incr [space] ++ expandtabs_from tabsize (line_pos + incr) r
      else
        c :: expandtabs_from tabsize
               (if (Ascii.eqb c newline || Ascii.eqb c carriage_return)%bool
                then 0 else line_pos + 1) r
  end.

Definition expandtabs (tabsize : Z) (s : str) : str := expandtabs_from tabsize 0 s.

(** [format(s, '^w')], the field [{output:^{width}}]: centred in a field of [w] columns, the odd space
    going to the right; a string that is too long is left as it is. *)
Definition center_format (w : Z) (s : str) : str :=
  let total := w - len s in
  if total <=? 0 then s
  else
    let l := total / 2 in
    mul l [space] ++ s ++ mul (total - l) [space].

(** [sep.join(pieces)] *)
Fixpoint join (sep : str) (pieces : list str) : str :=
  match pieces with
  | [] => []
  | x :: r =>
      match r with
      | [] => x
      | _ :: _ => x ++ sep ++ join sep r
      end
  end.

(** The characters of [s] that are not whitespace, in order. *)
Definition visible (s : str) : str := filter (fun c => negb (isspace c)) s.

(** [s == t] *)
Definition eqb (s t : str) : bool :=
  if list_eq_dec ascii_dec s t then true else false.

(** Truth value of a string and of a list: non-empty. *)
Definition truthy {A : Type} (l : list A) : bool :=
  match l with [] => false | _ :: _ => true end.

End Str.

Import Str.

(* ====================================================================== *)
(** ** Effects and exceptions *)
(* ====================================================================== *)

Module World.

(** What a call does to the outside, in order. *)
Inductive event : Type :=
| Clear                          (* call('clear') *)
| Print (line : str)             (* print(line) *)
| Sleep (seconds : Z)            (* time.sleep(seconds) *)
| Popen (argv : list str)        (* subprocess.Popen(argv, ...) *)
| Wait.                          (* proc.wait() *)

(** The exceptions the two modules can raise. *)
Inductive exn : Type :=
| BannerWidthExceeded            (* Exception: Banner width exceeds terminal width. *)
| TextHeightExceeded             (* Exception: Text exceeds terminal height. *)
| MaxEmptySequence               (* ValueError: max() arg is an empty sequence *)
| InvalidWidth (width : Z)       (* ValueError: invalid width (must be > 0) *)
| SleepNegative                  (* ValueError: sleep length must be non-negative *)
| KeyErrorPATH                   (* KeyError: 'PATH' *)
| SleepOverflow                  (* OverflowError: timestamp too large to convert *)
| SleepOSError                   (* OSError: the operating system refuses the sleep *)
| PopenOSError.                  (* OSError, FileNotFoundError, ...: Popen cannot start the program *)

(** How a computation ends.  [OutOfFuel] is not a Python outcome: it marks a
    loop of the model that was cut short, and is shown never to happen. *)
Inductive outcome (A : Type) : Type :=
| Returned (a : A)
| Raised (e : exn)
| OutOfFuel.

Arguments Returned {A} a.
Arguments Raised {A} e.
Arguments OutOfFuel {A}.

(** A computation: the events it emitted, then how it ended. *)
Definition IO (A : Type) : Type := (list event * outcome A)%type.

Definition ret {A} (a : A) : IO A := ([], Returned a).
Definition raise {A} (e : exn) : IO A := ([], Raised e).
Definition emit (e : event) : IO unit := ([e], Returned tt).

Definition bind {A B} (m : IO A) (f : A -> IO B) : IO B :=
  match m with
  | (t, Returned a) => let (t', r) := f a in (t ++ t', r)
  | (t, Raised e) => (t, Raised e)
  | (t, OutOfFuel) => (t, OutOfFuel)
  end.

(** An effect-free computation, such as a library call, run inside [IO]. *)
Definition lift {A} (o : outcome A) : IO A := ([], o).

(** [for x in l: body(x)] *)
Fixpoint for_each {A} (l : list A) (body : A -> IO unit) : IO unit :=
  match l with
  | [] => ret tt
  | x :: r => bind (body x) (fun _ => for_each r body)
  end.

(** [range(n)] *)
Definition range (n : Z) : list Z := map Z.of_nat (seq 0 (Z.to_nat n)).

(** The lines that a run has printed, in order. *)
Fixpoint printed (t : list event) : list str :=
  match t with
  | [] => []
  | Print line :: r => line :: printed r
  | _ :: r => printed r
  end.

Definition trace {A} (m : IO A) : list event := fst m.
Definition result {A} (m : IO A) : outcome A := snd m.

End World.

Import World.

Declare Scope io_scope.
Delimit Scope io_scope with io.
Notation "x <- m ;; k" := (bind m (fun x => k))
  (at level 61, m at next level, right associativity) : io_scope.
Notation "m ;; k" := (bind m (fun _ => k))
  (at level 61, right associativity) : io_scope.
Local Open Scope io_scope.

(* ====================================================================== *)
(** ** textwrap.wrap (CPython 3, Lib/textwrap.py) with default options

    [wrap(text, width)] builds [TextWrapper(width=width)] and calls its
    [wrap] method.  The defaults are: empty [initial_indent]
    and [subsequent_indent], [expand_tabs], [replace_whitespace],
    [break_long_words], [drop_whitespace] and [break_on_hyphens] on,
    [fix_sentence_endings] off, [tabsize = 8], [max_lines = None]. *)
(* ====================================================================== *)

Module Textwrap.

(** *** Character classes of [wordsep_re] *)

(** [_whitespace = '\t\n\x0b\x0c\r '] *)
Definition is_ws (c : ascii) : bool := (in_range 9 13 c || in_range 32 32 c)%bool.

(** [\d] *)
Definition is_digit (c : ascii) : bool := in_range 48 57 c.

(** [\w] on [str] patterns: alphanumeric code points and the underscore. *)
Definition is_word (c : ascii) : bool :=
  (in_range 48 57 c || in_range 65 90 c || in_range 95 95 c
   || in_range 97 122 c || in_range 170 170 c || in_range 178 179 c
   || in_range 181 181 c || in_range 185 186 c || in_range 188 190 c
   || in_range 192 214 c || in_range 216 246 c || in_range 248 255 c)%bool.

(** [letter = [^\d\W]] *)
Definition is_letter (c : ascii) : bool := (is_word c && negb (is_digit c))%bool.

(** [word_punct]: a word character or one of ! (33), double quote (34),
    & (38), apostrophe (39), comma (44), full stop (46), ? (63). *)
Definition is_word_punct (c : ascii) : bool :=
  (is_word c || in_range 33 34 c || in_range 38 39 c || in_range 44 44 c
   || in_range 46 46 c || in_range 63 63 c)%bool.

Definition is_hyphen (c : ascii) : bool := Ascii.eqb c hyphen.

(** *** _munge_whitespace *)

Definition tabsize : Z := 8.

(** [text.translate(unicode_whitespace_trans)] *)
Definition replace_whitespace (text : str) : str :=
  map (fun c => if is_ws c then space else c) text.

Definition _munge_whitespace (text : str) : str :=
  replace_whitespace (expandtabs tabsize text).

(** *** _split: [wordsep_re.split(text)] without the empty pieces

    [wordsep_re] is one capturing group of three alternatives, each of which
    consumes at least one character, and at every position before the end of
    the text one of them matches: the chunks are the successive matches.
    In the functions below [prev] is the text before the current position,
    reversed (so its head is the character just before), and [rest] is the
    text from the current position on. *)

(** Number of leading characters of [s] that satisfy [p]. *)
Fixpoint run_length (p : ascii -> bool) (s : str) : nat :=
  match s with
  | c :: r => if p c then S (run_length p r) else O
  | [] => O
  end.

(** Lookahead [(?= letter -? letter)]. *)
Definition ahead_hyphenated (rest : str) : bool :=
  match rest with
  | a :: b :: r =>
      (is_letter a &&
       (is_letter b ||
        (is_hyphen b && match r with c :: _ => is_letter c | [] => false end)))%bool
  | _ => false
  end.

(** Lookbehinds [(?<=letter{2}-)] and [(?<=letter-letter-)], tested just
    after a hyphen; [prev] is the text before that hyphen. *)
Definition behind_hyphenated (prev : str) : bool :=
  match prev with
  | a :: b :: r =>
      (is_letter a &&
       (is_letter b ||
        (is_hyphen b && match r with c :: _ => is_letter c | [] => false end)))%bool
  | _ => false
  end.

(** Lookbehind [(?<=word_punct)]. *)
Definition behind_word_punct (prev : str) : bool :=
  match prev with
  | a :: _ => is_word_punct a
  | [] => false
  end.

(** [-{2,}] followed by [\w]: as a hyphen is not a word character, the
    hyphens matched are the whole run. *)
Definition ahead_em_dash (rest : str) : bool :=
  let n := run_length is_hyphen rest in
  ((2 <=? n)%nat &&
   match skipn n rest with c :: _ => is_word c | [] => false end)%bool.

(** Third alternative, [nowhitespace+?] followed by one of three endings.
    At least one character has been consumed; the result is the number of
    further characters of the match.  The lazy [+?] tries the endings in
    order after each character: a hyphen of a hyphenated word (which is
    consumed), the end of the word, and an em-dash ahead. *)
Fixpoint word_more (prev rest : str) : nat :=
  match rest with
  | [] => O
  | c :: r =>
      if (is_hyphen c && behind_hyphenated prev && ahead_hyphenated r)%bool then 1%nat
      else if is_ws c then O
      else if (behind_word_punct prev && ahead_em_dash rest)%bool then O
      else S (word_more (c :: prev) r)
  end.

(** Length of the match that starts at a position where [rest] is not empty. *)
Definition match_length (prev rest : str) : nat :=
  match rest with
  | [] => O
  | c :: r =>
      if is_ws c then run_length is_ws rest
      else if (behind_word_punct prev && ahead_em_dash rest)%bool
      then run_length is_hyphen rest
      else S (word_more (c :: prev) r)
  end.

Definition flush (cur : str) : list str :=
  match cur with [] => [] | _ :: _ => [rev cur] end.

(** The successive matches.  [cur] is the chunk being read, reversed, and
    [n] the number of characters it still takes. *)
Fixpoint split_go (prev cur : str) (n : nat) (rest : str) : list str :=
  match rest with
  | [] => flush cur
  | c :: r =>
      match n with
      | S n' => split_go (c :: prev) (c :: cur) n' r
      | O => flush cur ++ split_go (c :: prev) [c] (pred (match_length prev rest)) r
      end
  end.

Definition _split (text : str) : list str := split_go [] [] 0 text.

Definition _split_chunks (text : str) : list str := _split (_munge_whitespace text).

(** *** _handle_long_word

    [reversed_chunks] is a stack whose top, Python's [reversed_chunks[-1]],
    is the head of the list here; [cur_line] is in reading order.  The
    function returns the two lists it updates in place. *)
Definition _handle_long_word (reversed_chunks cur_line : list str)
    (cur_len width : Z) : list str * list str :=
  match reversed_chunks with
  | [] => (reversed_chunks, cur_line)
  | chunk :: below =>
      let space_left := if width <? 1 then 1 else width - cur_len in
      let end_ := space_left in
      let end_ :=
        if len chunk >? space_left then
          let hyphen_ix := rfind hyphen space_left chunk in
          if ((hyphen_ix >? 0)
              && existsb (fun c => negb (is_hyphen c)) (slice_to hyphen_ix chunk))%bool
          then hyphen_ix + 1 else end_
        else end_ in
      (slice_from end_ chunk :: below, cur_line ++ [slice_to end_ chunk])
  end.

(** *** _wrap_chunks *)

(** The inner [while chunks:] loop: chunks are moved to the line while they
    fit. *)
Fixpoint fill_line (width cur_len : Z) (cur_line chunks : list str)
    : list str * Z * list str :=
  match chunks with
  | [] => (cur_line, cur_len, chunks)
  | c :: below =>
      let l := len c in
      if cur_len + l <=? width then fill_line width (cur_len + l) (cur_line ++ [c]) below
      else (cur_line, cur_len, chunks)
  end.

(** [if cur_line and cur_line[-1].strip() == '': del cur_line[-1]] *)
Definition drop_trailing_blank (cur_line : list str) : list str :=
  match rev cur_line with
  | last :: _ => if is_blank last then removelast cur_line else cur_line
  | [] => cur_line
  end.

(** One round of the outer [while chunks:] loop, entered with
    [chunks = top :: below]; it returns the new [lines] and [chunks].  The
    running [cur_len] is only read again when [max_lines] is set, so its last
    two updates are left out. *)
Definition wrap_round (width : Z) (lines : list str) (top : str) (below : list str)
    : list str * list str :=
  let indent : str := [] in
  let width := width - len indent in
  let chunks := if (is_blank top && truthy lines)%bool then below else top :: below in
  let '(cur_line, cur_len, chunks) := fill_line width 0 [] chunks in
  let '(chunks, cur_line) :=
    match chunks with
    | c :: _ =>
        if len c >? width then _handle_long_word chunks cur_line cur_len width
        else (chunks, cur_line)
    | [] => (chunks, cur_line)
    end in
  let cur_line := drop_trailing_blank cur_line in
  let lines := if truthy cur_line then lines ++ [indent ++ concat cur_line] else lines in
  (lines, chunks).

Fixpoint wrap_loop (fuel : nat) (width : Z) (lines chunks : list str)
    : option (list str) :=
  match chunks with
  | [] => Some lines
  | top :: below =>
      match fuel with
      | O => None
      | S fuel' =>
          let '(lines, chunks) := wrap_round width lines top below in
          wrap_loop fuel' width lines chunks
      end
  end.

(** Every round removes a chunk or at least one character of the top chunk,
    so this many rounds are enough. *)
Definition rounds (chunks : list str) : nat :=
  length chunks + length (concat chunks).

Definition _wrap_chunks (width : Z) (chunks : list str) : outcome (list str) :=
  if width <=? 0 then Raised (InvalidWidth width)
  else
    match wrap_loop (rounds chunks) width [] chunks with
    | Some lines => Returned lines
    | None => OutOfFuel
    end.

(** [textwrap.wrap(text, width)]: [_split_chunks], then [_wrap_chunks]. *)
Definition wrap (text : str) (width : Z) : outcome (list str) :=
  _wrap_chunks width (_split_chunks text).

End Textwrap.

(* ====================================================================== *)
(** ** src/uptane_banners.py *)
(* ====================================================================== *)

Module Banners.

Definition ESC : ascii := "027"%char.

(** Font colour escape sequences. *)
Definition RED : str := ESC :: lit "[31m".
Definition GREEN : str := ESC :: lit "[32m".
Definition YELLOW : str := ESC :: lit "[33m".

(** Background colour escape sequences. *)
Definition BLACK_BG : str := ESC :: lit "[40m".
Definition BLUE_BG : str := ESC :: lit "[44m".
Definition WHITE_BG : str := ESC :: lit "[107m".
Definition GRAY_BG : str := ESC :: lit "[100m".

Definition RESET_COLOR : str := ESC :: lit "[0m".

(** The terminal as [stty size] reports it, and the host behind it:
    [sleeps d] tells whether the operating system accepts a sleep of [d]
    seconds (it refuses one whose end lies beyond what its clock can hold). *)
Record Terminal : Type := { rows : Z; cols : Z; sleeps : Z -> bool }.

(** A terminal of the given size on a host that accepts every sleep. *)
Definition terminal (rows cols : Z) : Terminal :=
  {| rows := rows; cols := cols; sleeps := fun _ => true |}.

Definition get_screen_size (tm : Terminal) : IO (Z * Z) := ret (rows tm, cols tm).

Definition clear_screen : IO unit := emit Clear.

Definition print (output : str) : IO unit := emit (Print output).

(** The largest whole number of seconds that fits the 64-bit count of
    nanoseconds to which [time.sleep] converts its argument. *)
Definition sleep_max : Z := 9223372036.

(** [time.sleep(seconds)]: the conversion of the argument overflows beyond
    [sleep_max] on either side; a negative length is refused; then the
    operating system is asked, and may refuse. *)
Definition sleep (accepts : Z -> bool) (seconds : Z) : IO unit :=
  if ((seconds <? - sleep_max) || (sleep_max <? seconds))%bool then raise SleepOverflow
  else if seconds <? 0 then raise SleepNegative
  else if accepts seconds then emit (Sleep seconds)
  else raise SleepOSError.

(** What [open(file_path, 'r').read()] returns for a file whose decoded
    characters are [decoded]: in text mode every carriage return followed by a
    line feed, and every other carriage return, is read as one line feed.
    The decoding of the bytes, which depends on the locale, is not part of
    the model. *)
Fixpoint read_text (decoded : str) : str :=
  match decoded with
  | [] => []
  | c :: r =>
      if Ascii.eqb c carriage_return then
        newline ::
        match r with
        | d :: r' => if Ascii.eqb d newline then read_text r' else read_text r
        | [] => read_text r
        end
      else c :: read_text r
  end.

(** [load_banner], applied to the decoded characters of the file. *)
Definition load_banner (decoded : str) : list str := split newline (read_text decoded).

(** An optional argument whose default is [False]: [None] stands for the
    default, and a string given is true when it is not empty. *)
Definition is_set (arg : option str) : bool :=
  match arg with Some s => truthy s | None => false end.

Definition value (arg : option str) : str :=
  match arg with Some s => s | None => [] end.

(** The [text] argument: a string or a list of lines. *)
Inductive text_arg : Type :=
| TextStr (s : str)
| TextList (lines : list str).

Definition text_truthy (text : option text_arg) : bool :=
  match text with
  | Some (TextStr s) => truthy s
  | Some (TextList l) => truthy l
  | None => false
  end.

(** [if not isinstance(text, list): text = text.split("\n")] *)
Definition text_lines (text : option text_arg) : list str :=
  match text with
  | Some (TextStr s) => split newline s
  | Some (TextList l) => l
  | None => []
  end.

(** [show_for] is true when it is a number other than zero. *)
Definition show_for_truthy (show_for : option Z) : bool :=
  match show_for with Some d => negb (d =? 0) | None => false end.

(** [max(banner_array, key=len)]: the first of the longest lines; an empty
    sequence is a ValueError. *)
Fixpoint max_len_from (best : str) (l : list str) : str :=
  match l with
  | [] => best
  | x :: r => max_len_from (if len x >? len best then x else best) r
  end.

Definition max_key_len (l : list str) : outcome str :=
  match l with
  | [] => Raised MaxEmptySequence
  | x :: r => Returned (max_len_from x r)
  end.

(** Lines 107-112: the width check and the left padding.  In
    [int((cols - banner_width) / 2)] the difference is positive, so the
    quotient truncated by [int] is the floor. *)
Definition left_fill_of (banner_width cols : Z) : IO Z :=
  if banner_width >? cols then raise BannerWidthExceeded
  else if banner_width =? cols then ret 0
  else ret ((cols - banner_width) / 2).

(** Lines 118-120: a banner line between its two runs of spaces. *)
Definition padded (cols left_fill : Z) (line : str) : str :=
  let right_fill := cols - left_fill - len line in
  mul left_fill [space] ++ line ++ mul right_fill [space].

(** Lines 122-129: the colour codes around an output line. *)
Definition colored (color color_bg : option str) (output : str) : str :=
  let output := if is_set color then value color ++ output else output in
  let output := if is_set color_bg then value color_bg ++ output else output in
  if (is_set color || is_set color_bg)%bool then output ++ RESET_COLOR else output.

Definition margin_len : Z := 10.

(** Lines 141-142: [for line in text: text_array += textwrap.wrap(line, width)] *)
Fixpoint wrap_lines (width : Z) (text text_array : list str) : outcome (list str) :=
  match text with
  | [] => Returned text_array
  | line :: r =>
      match Textwrap.wrap line width with
      | Returned wrapped => wrap_lines width r (text_array ++ wrapped)
      | Raised e => Raised e
      | OutOfFuel => OutOfFuel
      end
  end.

(** Lines 149-158: a caption line centred between its two margins.  The
    wrapping before it has raised unless [output_width] is positive. *)
Definition caption_line (cols : Z) (color_bg : option str) (output : str) : str :=
  let output_width := cols - 2 * margin_len in
  let margin := mul margin_len [space] in
  let margin := if is_set color_bg then value color_bg ++ margin ++ RESET_COLOR
                else margin in
  margin ++ center_format output_width output ++ margin.

(** Lines 134-160: the caption; it returns [text_array]. *)
Definition print_text (rows cols : Z) (banner_array : list str)
    (color_bg : option str) (text : option text_arg) : IO (list str) :=
  if text_truthy text then
    text_array <- lift (wrap_lines (cols - 2 * margin_len) (text_lines text) []) ;;
    (if len banner_array + len text_array >? rows
     then raise TextHeightExceeded else ret tt) ;;
    for_each text_array (fun output => print (caption_line cols color_bg output)) ;;
    ret text_array
  else ret [].

(** Line 166: a line of the background colour as wide as the terminal. *)
Definition fill_row (cols : Z) (color_bg : option str) : str :=
  value color_bg ++ mul cols [space] ++ RESET_COLOR.

(** Lines 117-131: the banner, line by line. *)
Definition print_lines (cols left_fill : Z) (color color_bg : option str)
    (banner_array : list str) : IO unit :=
  for_each banner_array
    (fun line => print (colored color color_bg (padded cols left_fill line))).

(** Lines 164-166: the rows below the content, when a background is set. *)
Definition fill_bottom (rows cols : Z) (banner_array text_array : list str)
    (color_bg : option str) : IO unit :=
  if is_set color_bg then
    for_each (range (rows - (len banner_array + len text_array) - 1))
      (fun _ => print (fill_row cols color_bg))
  else ret tt.

(** Lines 168-170: the hold and the second clearing. *)
Definition hold (accepts : Z -> bool) (show_for : option Z) : IO unit :=
  if show_for_truthy show_for then
    sleep accepts (match show_for with Some d => d | None => 0 end) ;;
    clear_screen
  else ret tt.

(** Lines 133-170: what follows the banner. *)
Definition below_banner (accepts : Z -> bool) (rows cols : Z)
    (banner_array : list str) (show_for : option Z) (color_bg : option str)
    (text : option text_arg) : IO unit :=
  text_array <- print_text rows cols banner_array color_bg text ;;
  fill_bottom rows cols banner_array text_array color_bg ;;
  hold accepts show_for.

Definition print_banner (tm : Terminal) (banner_array : list str)
    (show_for : option Z) (color color_bg : option str)
    (text : option text_arg) : IO unit :=
  size <- get_screen_size tm ;;
  let rows := fst size in
  let cols := snd size in
  longest <- lift (max_key_len banner_array) ;;
  let banner_width := len longest in
  left_fill <- left_fill_of banner_width cols ;;
  clear_screen ;;
  print_lines cols left_fill color color_bg banner_array ;;
  below_banner (sleeps tm) rows cols banner_array show_for color_bg text.

(** The width of a banner in the words of the specification: the length of
    its longest line. *)
Definition width_of (banner_array : list str) : Z :=
  fold_right (fun line w => Z.max (len line) w) 0 banner_array.

(** The left padding in the words of the specification. *)
Definition left_padding (W C : Z) : Z := if W =? C then 0 else (C - W) / 2.

End Banners.

(* ====================================================================== *)
(** ** src/uptane_sounds.py *)
(* ====================================================================== *)

Module Sounds.

(** What the module reads from its environment: the PATH variable, if set,
    [os.path.isfile] and [os.access(_, os.X_OK)]; and [can_start argv],
    whether the operating system starts the program that [Popen(argv)] asks
    for (it looks the name up itself, and [Popen] raises when that fails). *)
Record Env : Type := {
  PATH : option str;
  isfile : str -> bool;
  access_X_OK : str -> bool;
  can_start : list str -> bool
}.

Definition pathsep : ascii := ":"%char.
Definition sep : ascii := "/"%char.
Definition dquote : ascii := "034"%char.

Definition omxplayer : str := lit "omxplayer".
Definition afplay : str := lit "afplay".

(** [os.path.join(a, b)] of posixpath. *)
Definition path_join (a b : str) : str :=
  match b with
  | c :: _ =>
      if Ascii.eqb c sep then b
      else
        match rev a with
        | [] => a ++ b
        | z :: _ => if Ascii.eqb z sep then a ++ b else a ++ [sep] ++ b
        end
  | [] =>
      match rev a with
      | [] => a ++ b
      | z :: _ => if Ascii.eqb z sep then a ++ b else a ++ [sep] ++ b
      end
  end.

(** The candidate that [_on_path] tests for one entry of PATH. *)
Definition cmd_path (path cmd : str) : str := path_join (strip dquote path) cmd.

(** The loop of [_on_path] over the entries of PATH. *)
Fixpoint search (env : Env) (cmd : str) (paths : list str) : bool :=
  match paths with
  | [] => false
  | path :: r =>
      let p := cmd_path path cmd in
      if (isfile env p && access_X_OK env p)%bool then true
      else search env cmd r
  end.

Definition _on_path (env : Env) (cmd : str) : outcome bool :=
  match PATH env with
  | None => Raised KeyErrorPATH
  | Some p => Returned (search env cmd (split pathsep p))
  end.

Definition not_found_message (sound_path : str) : str :=
  lit "Sound '" ++ sound_path ++ lit "' not found.".

Definition no_player_message : str := lit "No player found on this platform.".

(** Lines 90-94: the child process and the optional wait. *)
Definition launch (env : Env) (player sound_path : str) (blocking : bool) : IO unit :=
  (if can_start env [player; sound_path] then emit (Popen [player; sound_path])
   else raise PopenOSError) ;;
  (if blocking then emit Wait else ret tt).

Definition play (env : Env) (sound_path : str) (blocking : bool) : IO unit :=
  if negb (isfile env sound_path) then
    emit (Print (not_found_message sound_path))
  else
    omx <- lift (_on_path env omxplayer) ;;
    if omx then launch env omxplayer sound_path blocking
    else
      afp <- lift (_on_path env afplay) ;;
      if afp then launch env afplay sound_path blocking
      else emit (Print no_player_message).

End Sounds.

Import Textwrap Banners.

(* ====================================================================== *)
(** ** Strings: lengths and slices *)
(* ====================================================================== *)

Section StrFacts.

Lemma len_nonneg {A} (s : list A) : 0 <= len s.
Proof. unfold len. lia. Qed.

Lemma len_app {A} (s t : list A) : len (s ++ t) = len s + len t.
Proof. unfold len. rewrite length_app. lia. Qed.

Lemma len_cons {A} (x : A) (s : list A) : len (x :: s) = 1 + len s.
Proof. unfold len. simpl length. lia. Qed.

Lemma len_nil_iff {A} (s : list A) : len s = 0 <-> s = [].
Proof.
  unfold len. destruct s as [|x s]; simpl; split; intro H;
    first [reflexivity | discriminate | lia].
Qed.

Lemma mul_space_eq (n : Z) : mul n [space] = repeat space (Z.to_nat n).
Proof.
  unfold mul. induction (Z.to_nat n) as [|k IH]; simpl; [reflexivity|].
  now rewrite IH.
Qed.

Lemma len_mul_space (n : Z) : len (mul n [space]) = Z.max 0 n.
Proof. rewrite mul_space_eq. unfold len. rewrite repeat_length. lia. Qed.

Lemma slice_to_from (e : Z) (s : str) : slice_to e s ++ slice_from e s = s.
Proof. apply firstn_skipn. Qed.

Lemma len_slice_to (e : Z) (s : str) : 0 <= e -> len (slice_to e s) = Z.min e (len s).
Proof.
  intros He. unfold slice_to, slice_index, len.
  destruct (Z.ltb_spec e 0); [lia|]. rewrite length_firstn. lia.
Qed.

End StrFacts.

(* ====================================================================== *)
(** ** The monad *)
(* ====================================================================== *)

Section IOFacts.

Lemma bind_returned {A B} (t : list event) (a : A) (f : A -> IO B) :
  bind (t, Returned a) f = (t ++ fst (f a), snd (f a)).
Proof. unfold bind. now destruct (f a). Qed.

Lemma bind_raised {A B} (t : list event) (e : exn) (f : A -> IO B) :
  bind (t, Raised e) f = (t, Raised e).
Proof. reflexivity. Qed.

Lemma bind_ret {A B} (a : A) (f : A -> IO B) : bind (ret a) f = f a.
Proof. unfold bind, ret. now destruct (f a). Qed.

Lemma bind_lift_returned {A B} (a : A) (f : A -> IO B) :
  bind (lift (Returned a)) f = f a.
Proof. apply bind_ret. Qed.

Lemma bind_lift_raised {A B} (e : exn) (f : A -> IO B) :
  bind (lift (Raised e)) f = ([], Raised e).
Proof. reflexivity. Qed.

Lemma bind_emit {B} (e : event) (f : unit -> IO B) :
  bind (emit e) f = (e :: fst (f tt), snd (f tt)).
Proof. unfold bind, emit. now destruct (f tt). Qed.

Lemma for_each_print {A} (l : list A) (f : A -> str) :
  for_each l (fun x => print (f x)) = (map (fun x => Print (f x)) l, Returned tt).
Proof.
  induction l as [|x l IH]; simpl; [reflexivity|].
  rewrite IH. reflexivity.
Qed.

End IOFacts.

(* ====================================================================== *)
(** ** The banner: width, padding and colours *)
(* ====================================================================== *)

Section BannerFacts.

Lemma width_of_nonneg (b : list str) : 0 <= width_of b.
Proof. induction b as [|x b IH]; simpl; lia. Qed.

Lemma width_of_bound (b : list str) : Forall (fun line => len line <= width_of b) b.
Proof.
  induction b as [|x b IH]; constructor; simpl; [lia|].
  eapply Forall_impl; [|exact IH]. simpl. intros; lia.
Qed.

Lemma max_len_from_len (l : list str) :
  forall best, len (max_len_from best l) = Z.max (len best) (width_of l).
Proof.
  induction l as [|x l IH]; intros best; simpl.
  - pose proof (len_nonneg best). lia.
  - rewrite IH. destruct (Z.gtb_spec (len x) (len best)); lia.
Qed.

Lemma max_len_from_in (l : list str) :
  forall best, In (max_len_from best l) (best :: l).
Proof.
  induction l as [|x l IH]; intros best; simpl; [now left|].
  destruct (IH (if len x >? len best then x else best)) as [H|H].
  - destruct (len x >? len best); [right; left | left]; exact H.
  - right; right; exact H.
Qed.

Lemma max_key_len_defined (b : list str) :
  b <> [] ->
  exists longest,
    max_key_len b = Returned longest /\ In longest b /\ len longest = width_of b.
Proof.
  destruct b as [|x b]; [congruence|]. intros _.
  exists (max_len_from x b). repeat split.
  - apply max_len_from_in.
  - rewrite max_len_from_len. reflexivity.
Qed.

Lemma left_padding_bounds (W C : Z) :
  0 <= W <= C -> 0 <= left_padding W C <= C - W.
Proof.
  intros H. unfold left_padding. destruct (Z.eqb_spec W C); [lia|].
  split; [apply Z.div_pos; lia|]. apply Z.div_le_upper_bound; lia.
Qed.

Lemma left_fill_of_fits (W C : Z) :
  W <= C -> left_fill_of W C = ret (left_padding W C).
Proof.
  intros H. unfold left_fill_of, left_padding.
  destruct (Z.gtb_spec W C); [lia|]. now destruct (W =? C).
Qed.

(** A banner that fits: the screen is cleared, every line is printed, and the
    rest of the call follows. *)
Lemma print_banner_fits (tm : Terminal) (b : list str) (show_for : option Z)
    (color color_bg : option str) (text : option text_arg) :
  b <> [] -> width_of b <= cols tm ->
  print_banner tm b show_for color color_bg text =
    (Clear ::
       map (fun line => Print (colored color color_bg
              (padded (cols tm) (left_padding (width_of b) (cols tm)) line))) b
       ++ fst (below_banner (sleeps tm) (rows tm) (cols tm) b show_for color_bg text),
     snd (below_banner (sleeps tm) (rows tm) (cols tm) b show_for color_bg text)).
Proof.
  intros Hne Hfit.
  destruct (max_key_len_defined b Hne) as (longest & Hmax & _ & Hlen).
  unfold print_banner, get_screen_size.
  rewrite bind_ret. cbv beta. cbn [fst snd].
  rewrite Hmax, bind_lift_returned, Hlen.
  rewrite left_fill_of_fits by exact Hfit.
  rewrite bind_ret. unfold clear_screen. rewrite bind_emit.
  unfold print_lines. rewrite for_each_print, bind_returned.
  reflexivity.
Qed.

(** A banner that does not fit: the call ends at the width check. *)
Lemma print_banner_wide (tm : Terminal) (b : list str) (show_for : option Z)
    (color color_bg : option str) (text : option text_arg) :
  b <> [] -> cols tm < width_of b ->
  print_banner tm b show_for color color_bg text = ([], Raised BannerWidthExceeded).
Proof.
  intros Hne Hwide.
  destruct (max_key_len_defined b Hne) as (longest & Hmax & _ & Hlen).
  unfold print_banner, get_screen_size.
  rewrite bind_ret. cbv beta. cbn [fst snd].
  rewrite Hmax, bind_lift_returned, Hlen.
  unfold left_fill_of. destruct (Z.gtb_spec (width_of b) (cols tm)); [|lia].
  reflexivity.
Qed.

Lemma print_banner_nil (tm : Terminal) (show_for : option Z)
    (color color_bg : option str) (text : option text_arg) :
  print_banner tm [] show_for color color_bg text = ([], Raised MaxEmptySequence).
Proof. reflexivity. Qed.

Lemma colored_both (fg bg output : str) :
  truthy fg = true -> truthy bg = true ->
  colored (Some fg) (Some bg) output = bg ++ fg ++ output ++ RESET_COLOR.
Proof.
  intros Hf Hb. unfold colored. simpl. rewrite Hf, Hb. simpl.
  now rewrite <- !app_assoc.
Qed.

End BannerFacts.

(** C1. For a non-empty banner whose width W is at most the column count C,
    [print_banner] clears the screen and prints every line between a left run
    of [left] spaces and a right run of [C - left - len line] spaces, where
    [left] is 0 when W = C and floor((C - W) / 2) otherwise; both runs have a
    length that is not negative, and left run + line + right run is exactly C
    characters. *)
Theorem print_banner_pads_to_columns (tm : Terminal) (b : list str)
    (show_for : option Z) (color color_bg : option str) (text : option text_arg) :
  b <> [] -> width_of b <= cols tm ->
  let C := cols tm in
  let left := if width_of b =? C then 0 else (C - width_of b) / 2 in
  (exists rest,
     trace (print_banner tm b show_for color color_bg text) =
       Clear ::
       map (fun line => Print (colored color color_bg
              (mul left [space] ++ line ++ mul (C - left - len line) [space]))) b
       ++ rest)
  /\ Forall (fun line =>
       len (mul left [space]) = left /\
       len (mul (C - left - len line) [space]) = C - left - len line /\
       len (mul left [space]) + len line + len (mul (C - left - len line) [space]) = C /\
       len (mul left [space] ++ line ++ mul (C - left - len line) [space]) = C) b.
Proof.
  intros Hne Hfit C left.
  pose proof (width_of_nonneg b) as Hw.
  assert (Hl : 0 <= left <= C - width_of b)
    by (apply (left_padding_bounds (width_of b) C); subst C; lia).
  split.
  - eexists. rewrite print_banner_fits by assumption. reflexivity.
  - eapply Forall_impl; [|apply width_of_bound]. simpl. intros line Hline.
    rewrite !len_app, !len_mul_space. lia.
Qed.

Lemma print_banner_pads_to_columns_witness :
  let tm := (terminal 10 40) in
  let b := [lit "####"; lit "#  #"; lit "####"] in
  (exists rest,
     trace (print_banner tm b None None None None) =
       Clear ::
       map (fun line => Print (colored None None
              (mul 18 [space] ++ line ++ mul (40 - 18 - len line) [space]))) b
       ++ rest)
  /\ Forall (fun line =>
       len (mul 18 [space]) = 18 /\
       len (mul (40 - 18 - len line) [space]) = 40 - 18 - len line /\
       len (mul 18 [space]) + len line + len (mul (40 - 18 - len line) [space]) = 40 /\
       len (mul 18 [space] ++ line ++ mul (40 - 18 - len line) [space]) = 40) b.
Proof.
  intros tm b.
  apply (print_banner_pads_to_columns tm b None None None None).
  - discriminate.
  - vm_compute. discriminate.
Defined.

(** C3. A banner whose width exceeds the column count: [print_banner] raises
    the width error and has emitted nothing, neither a line nor a clearing
    of the screen. *)
Theorem print_banner_too_wide (tm : Terminal) (b : list str)
    (show_for : option Z) (color color_bg : option str) (text : option text_arg) :
  b <> [] -> cols tm < width_of b ->
  print_banner tm b show_for color color_bg text = ([], Raised BannerWidthExceeded).
Proof. apply print_banner_wide. Qed.

Lemma print_banner_too_wide_witness :
  print_banner (terminal 10 40)
    [lit "#########################################"] None (Some RED) (Some BLACK_BG) None
  = ([], Raised BannerWidthExceeded).
Proof.
  apply print_banner_too_wide.
  - discriminate.
  - vm_compute. reflexivity.
Defined.

(* ====================================================================== *)
(** ** Which exceptions can be raised *)
(* ====================================================================== *)

Section Exceptions.

Lemma bind_result_raised {A B} (m : IO A) (f : A -> IO B) (e : exn) :
  snd (bind m f) = Raised e ->
  snd m = Raised e \/ exists a, snd m = Returned a /\ snd (f a) = Raised e.
Proof.
  destruct m as [t [a| e' |]]; simpl.
  - destruct (f a) as [t' r] eqn:E. simpl. intros ->. right. exists a.
    rewrite E. split; reflexivity.
  - intros [= ->]. left. reflexivity.
  - discriminate.
Qed.

Lemma for_each_print_result {A} (l : list A) (f : A -> str) :
  snd (for_each l (fun x => print (f x))) = Returned tt.
Proof. now rewrite for_each_print. Qed.

Lemma wrap_raises (text : str) (width : Z) (e : exn) :
  wrap text width = Raised e -> e = InvalidWidth width /\ width <= 0.
Proof.
  unfold wrap, _wrap_chunks. destruct (Z.leb_spec width 0).
  - intros [= <-]. now split.
  - destruct wrap_loop; discriminate.
Qed.

Lemma wrap_lines_raises (width : Z) (text : list str) :
  forall text_array e,
    wrap_lines width text text_array = Raised e ->
    e = InvalidWidth width /\ width <= 0.
Proof.
  induction text as [|line r IH]; intros acc e; simpl; [discriminate|].
  destruct (wrap line width) as [ls|e'|] eqn:E.
  - apply IH.
  - intros [= <-]. eapply wrap_raises; eassumption.
  - discriminate.
Qed.

Lemma sleep_raises (accepts : Z -> bool) (seconds : Z) (e : exn) :
  snd (sleep accepts seconds) = Raised e ->
  e = SleepOverflow \/ e = SleepNegative \/ e = SleepOSError.
Proof.
  unfold sleep. destruct (_ || _)%bool; [intros [= <-]; auto|].
  destruct (_ <? 0); [intros [= <-]; auto|].
  destruct (accepts seconds); [discriminate | intros [= <-]; auto].
Qed.

Lemma below_banner_raises (accepts : Z -> bool) (rows cols : Z) (b : list str)
    (show_for : option Z) (color_bg : option str) (text : option text_arg) (e : exn) :
  snd (below_banner accepts rows cols b show_for color_bg text) = Raised e ->
  e = InvalidWidth (cols - 2 * margin_len) \/ e = TextHeightExceeded
  \/ e = SleepOverflow \/ e = SleepNegative \/ e = SleepOSError.
Proof.
  unfold below_banner. intros H.
  apply bind_result_raised in H as [H | (text_array & _ & H)].
  - unfold print_text in H. destruct (text_truthy text); [|discriminate].
    apply bind_result_raised in H as [H | (ta & _ & H)].
    + left. eapply wrap_lines_raises. exact H.
    + apply bind_result_raised in H as [H | (_ & _ & H)].
      * destruct (_ >? _); [|discriminate]. injection H as <-. now right; left.
      * apply bind_result_raised in H as [H | (_ & _ & H)]; [|discriminate].
        rewrite for_each_print_result in H. discriminate.
  - apply bind_result_raised in H as [H | (_ & _ & H)].
    + unfold fill_bottom in H. destruct (is_set color_bg); [|discriminate].
      rewrite for_each_print_result in H. discriminate.
    + unfold hold in H. destruct (show_for_truthy show_for); [|discriminate].
      apply bind_result_raised in H as [H | (_ & _ & H)]; [|discriminate].
      apply sleep_raises in H. tauto.
Qed.

End Exceptions.

(** C9. On the empty banner list [print_banner] fails with the ValueError
    that [max] raises on an empty sequence, which is neither of the two
    layout errors, and it has emitted nothing; on every non-empty list the
    longest line exists, so the width is defined and that failure cannot
    happen. *)
Theorem print_banner_empty_banner :
  (forall tm show_for color color_bg text,
     print_banner tm [] show_for color color_bg text = ([], Raised MaxEmptySequence))
  /\ MaxEmptySequence <> BannerWidthExceeded
  /\ MaxEmptySequence <> TextHeightExceeded
  /\ (forall b, b <> [] ->
        (exists longest,
           max_key_len b = Returned longest /\ In longest b /\
           len longest = width_of b)
        /\ forall tm show_for color color_bg text,
             result (print_banner tm b show_for color color_bg text)
             <> Raised MaxEmptySequence).
Proof.
  split; [reflexivity|]. split; [discriminate|]. split; [discriminate|].
  intros b Hne. split; [now apply max_key_len_defined|].
  intros tm show_for color color_bg text. unfold result.
  destruct (Z.le_gt_cases (width_of b) (cols tm)) as [Hfit|Hwide].
  - rewrite print_banner_fits by assumption. cbn [snd]. intros H.
    apply below_banner_raises in H as [H|[H|[H|[H|H]]]]; discriminate.
  - rewrite print_banner_wide by assumption. discriminate.
Qed.

Lemma print_banner_empty_banner_witness :
  (exists longest,
     max_key_len [lit "##"; lit "####"; lit "#"] = Returned longest /\
     In longest [lit "##"; lit "####"; lit "#"] /\
     len longest = width_of [lit "##"; lit "####"; lit "#"])
  /\ forall tm show_for color color_bg text,
       result (print_banner tm [lit "##"; lit "####"; lit "#"]
                 show_for color color_bg text)
       <> Raised MaxEmptySequence.
Proof.
  apply (proj2 (proj2 (proj2 print_banner_empty_banner))).
  discriminate.
Defined.

(** C4, as the code has it.  When a foreground and a background colour are
    both set, every banner line is emitted as the background code, then the
    foreground code, then the padded line, then one reset code. *)
Theorem print_banner_color_order (tm : Terminal) (b : list str)
    (show_for : option Z) (fg bg : str) (text : option text_arg) :
  b <> [] -> width_of b <= cols tm ->
  truthy fg = true -> truthy bg = true ->
  exists rest,
    trace (print_banner tm b show_for (Some fg) (Some bg) text) =
      Clear ::
      map (fun line =>
             Print (bg ++ fg
                    ++ padded (cols tm) (left_padding (width_of b) (cols tm)) line
                    ++ RESET_COLOR)) b
      ++ rest.
Proof.
  intros Hne Hfit Hfg Hbg. eexists.
  rewrite print_banner_fits by assumption. unfold trace. cbn [fst].
  f_equal. f_equal. apply map_ext. intros line.
  now rewrite colored_both.
Qed.

Lemma print_banner_color_order_witness :
  exists rest,
    trace (print_banner (terminal 4 6) [lit "##"] None
             (Some GREEN) (Some GRAY_BG) None) =
      Clear ::
      map (fun line => Print (GRAY_BG ++ GREEN ++ padded 6 2 line ++ RESET_COLOR))
        [lit "##"]
      ++ rest.
Proof.
  apply (print_banner_color_order (terminal 4 6) [lit "##"] None
           GREEN GRAY_BG None).
  - discriminate.
  - vm_compute. discriminate.
  - reflexivity.
  - reflexivity.
Defined.

(** C4 as stated fails: with GREEN on GRAY_BG the line does not start with
    the foreground code followed by the background code. *)
Lemma print_banner_color_order_counterexample :
  ~ exists rest,
      trace (print_banner (terminal 4 6) [lit "##"] None
               (Some GREEN) (Some GRAY_BG) None) =
        Clear ::
        map (fun line => Print (GREEN ++ GRAY_BG ++ padded 6 2 line ++ RESET_COLOR))
          [lit "##"]
        ++ rest.
Proof.
  intros [rest H]. vm_compute in H. discriminate H.
Qed.

(* ====================================================================== *)
(** ** textwrap: the chunks *)
(* ====================================================================== *)

Section SplitFacts.

Lemma concat_flush (cur : str) : concat (flush cur) = rev cur.
Proof. destruct cur; simpl; [reflexivity|]. now rewrite app_nil_r. Qed.

Lemma flush_nonempty (cur : str) : Forall (fun c : str => c <> []) (flush cur).
Proof.
  destruct cur as [|x cur]; constructor; [|constructor].
  simpl. intros H. apply (f_equal (@length ascii)) in H.
  rewrite length_app in H. simpl in H. lia.
Qed.

(** The chunks tile the text. *)
Lemma split_go_concat (rest : str) :
  forall prev cur n, concat (split_go prev cur n rest) = rev cur ++ rest.
Proof.
  induction rest as [|c rest IH]; intros prev cur n; simpl.
  - now rewrite concat_flush, app_nil_r.
  - destruct n as [|n].
    + rewrite concat_app, concat_flush, IH. reflexivity.
    + rewrite IH. simpl. now rewrite <- app_assoc.
Qed.

Lemma split_go_nonempty (rest : str) :
  forall prev cur n, Forall (fun c : str => c <> []) (split_go prev cur n rest).
Proof.
  induction rest as [|c rest IH]; intros prev cur n; simpl.
  - apply flush_nonempty.
  - destruct n as [|n]; [|apply IH].
    apply Forall_app. split; [apply flush_nonempty | apply IH].
Qed.

Lemma _split_concat (text : str) : concat (_split text) = text.
Proof. unfold _split. now rewrite split_go_concat. Qed.

Lemma _split_nonempty (text : str) : Forall (fun c : str => c <> []) (_split text).
Proof. apply split_go_nonempty. Qed.

End SplitFacts.

(* ====================================================================== *)
(** ** textwrap: one round of the wrapping loop *)
(* ====================================================================== *)

Section RoundFacts.

Lemma rfind_from_bound (c : ascii) (s : str) :
  forall i, rfind_from c i s = -1 \/ i <= rfind_from c i s < i + len s.
Proof.
  induction s as [|x s IH]; intros i; [now left|].
  rewrite len_cons. cbn [rfind_from]. pose proof (len_nonneg s) as Hs.
  destruct (IH (i + 1)) as [H|H].
  - rewrite H. change (0 <=? -1) with false. cbv iota.
    destruct (Ascii.eqb x c); [right; lia | now left].
  - destruct (Z.leb_spec 0 (rfind_from c (i + 1) s)); [right; lia|].
    destruct (Ascii.eqb x c); [right; lia | now left].
Qed.

Lemma rfind_lt (c : ascii) (e : Z) (s : str) : 0 <= e -> rfind c e s < e.
Proof.
  intros He. unfold rfind.
  destruct (rfind_from_bound c (slice_to e s) 0) as [H|H]; [lia|].
  rewrite len_slice_to in H by exact He. lia.
Qed.

(** What [fill_line] moves to the line is a prefix of the chunks; it fits,
    and the chunk left on top, if any, does not. *)
Lemma fill_line_spec (width : Z) (chunks : list str) :
  forall cur_len cur_line cl clen ch,
    fill_line width cur_len cur_line chunks = (cl, clen, ch) ->
    exists taken,
      chunks = taken ++ ch /\ cl = cur_line ++ taken /\
      clen = cur_len + len (concat taken) /\
      (cur_len <= width -> clen <= width) /\
      match ch with [] => True | c :: _ => width < clen + len c end.
Proof.
  induction chunks as [|c below IH]; intros cur_len cur_line cl clen ch; simpl.
  - intros [= <- <- <-]. exists []. simpl. rewrite app_nil_r.
    repeat split; try lia. unfold len; simpl; lia.
  - destruct (Z.leb_spec (cur_len + len c) width) as [Hfit|Hno].
    + intros H. apply IH in H as (taken & -> & -> & -> & Hle & Htop).
      exists (c :: taken). simpl. rewrite <- app_assoc, len_app.
      repeat split; try lia. exact Htop.
    + intros [= <- <- <-]. exists []. simpl. rewrite app_nil_r.
      repeat split; try lia. unfold len at 1; simpl; lia.
Qed.

(** When everything fits, [fill_line] takes every chunk. *)
Lemma fill_line_all (width : Z) (chunks : list str) :
  forall cur_len cur_line,
    cur_len + len (concat chunks) <= width ->
    fill_line width cur_len cur_line chunks =
      (cur_line ++ chunks, cur_len + len (concat chunks), []).
Proof.
  induction chunks as [|c below IH]; intros cur_len cur_line; simpl.
  - intros _. rewrite app_nil_r. f_equal. f_equal. unfold len; simpl; lia.
  - rewrite len_app. intros H. pose proof (len_nonneg (concat below)).
    destruct (Z.leb_spec (cur_len + len c) width); [|lia].
    rewrite IH by lia. rewrite <- app_assoc. simpl. f_equal. f_equal. lia.
Qed.

(** The piece that [_handle_long_word] cuts off the top chunk fits in the
    room left on the line, and is not empty when there is room. *)
Lemma _handle_long_word_spec (chunk : str) (below cur_line : list str)
    (cur_len width : Z) :
  1 <= width -> 0 <= cur_len <= width ->
  exists e,
    _handle_long_word (chunk :: below) cur_line cur_len width =
      (slice_from e chunk :: below, cur_line ++ [slice_to e chunk]) /\
    0 <= e <= width - cur_len /\ (cur_len < width -> 1 <= e).
Proof.
  intros Hw Hc. unfold _handle_long_word.
  destruct (Z.ltb_spec width 1); [lia|].
  set (space_left := width - cur_len).
  destruct (len chunk >? space_left).
  - destruct ((rfind hyphen space_left chunk >? 0) && _)%bool eqn:E.
    + apply andb_prop in E as [E _]. apply Z.gtb_lt in E.
      pose proof (rfind_lt hyphen space_left chunk).
      eexists. split; [reflexivity|]. subst space_left. lia.
    + eexists. split; [reflexivity|]. subst space_left. lia.
  - eexists. split; [reflexivity|]. subst space_left. lia.
Qed.

Lemma len_concat_removelast (l : list str) :
  len (concat (removelast l)) <= len (concat l).
Proof.
  destruct l as [|x l]; [simpl; lia|].
  rewrite (app_removelast_last [] (l := x :: l)) at 2 by discriminate.
  rewrite concat_app, len_app. pose proof (len_nonneg (concat [last (x :: l) []])). lia.
Qed.

Lemma len_concat_drop_trailing_blank (l : list str) :
  len (concat (drop_trailing_blank l)) <= len (concat l).
Proof.
  unfold drop_trailing_blank. destruct (rev l); [lia|].
  destruct (is_blank _); [apply len_concat_removelast | lia].
Qed.

End RoundFacts.

(* ====================================================================== *)
(** ** textwrap: the loop ends, and its lines fit *)
(* ====================================================================== *)

Section LoopFacts.

Variable width : Z.
Hypothesis width_pos : 1 <= width.


Lemma rounds_cons (c : str) (l : list str) :
  rounds (c :: l) = (1 + length c + rounds l)%nat.
Proof. unfold rounds. simpl. rewrite length_app. lia. Qed.

Lemma rounds_app (a b : list str) : rounds (a ++ b) = (rounds a + rounds b)%nat.
Proof. unfold rounds. rewrite concat_app, !length_app. lia. Qed.

Lemma length_slice_from (e : Z) (c : str) :
  0 <= e -> Z.of_nat (length (slice_from e c)) = len c - Z.min e (len c).
Proof.
  intros He. pose proof (len_slice_to e c He) as H1.
  pose proof (f_equal len (slice_to_from e c)) as H2.
  rewrite len_app in H2. unfold len in *. lia.
Qed.

(** One round: the chunks put on the new line fit in [width], and the
    measure [rounds] of the chunks that remain has gone down. *)
Lemma wrap_round_spec (lines : list str) (top : str) (below : list str) :
  exists line_chunks rest,
    wrap_round width lines top below =
      (if truthy (drop_trailing_blank line_chunks)
       then lines ++ [concat (drop_trailing_blank line_chunks)] else lines,
       rest)
    /\ len (concat line_chunks) <= width
    /\ (rounds rest < rounds (top :: below))%nat.
Proof.
  unfold wrap_round. cbv zeta.
  change (len (@nil ascii)) with 0. rewrite Z.sub_0_r.
  set (chunks1 := if (is_blank top && truthy lines)%bool then below else top :: below).
  assert (H1 : (rounds chunks1 <= rounds (top :: below))%nat).
  { subst chunks1. destruct (_ && _)%bool; [rewrite rounds_cons|]; lia. }
  destruct (fill_line width 0 [] chunks1) as [[cl clen] ch] eqn:E.
  apply fill_line_spec in E as (taken & Hch & -> & -> & Hle & Htop).
  simpl app in *. specialize (Hle ltac:(lia)).
  pose proof (len_nonneg (concat taken)) as Hnn.
  rewrite Hch, rounds_app in H1.
  destruct ch as [|c ch'].
  - exists taken, []. repeat split; [lia|]. rewrite rounds_cons. unfold rounds. simpl. lia.
  - destruct (Z.gtb_spec (len c) width) as [Hlong|Hshort].
    + destruct (_handle_long_word_spec c ch' taken (0 + len (concat taken)) width)
        as (e & -> & He & He1); [lia|lia|].
      exists (taken ++ [slice_to e c]), (slice_from e c :: ch').
      split; [reflexivity|]. split.
      * rewrite concat_app, len_app. simpl concat. rewrite app_nil_r.
        rewrite len_slice_to by lia. lia.
      * rewrite rounds_cons in *. pose proof (length_slice_from e c ltac:(lia)) as Hs.
        unfold len in Hs.
        destruct taken as [|t0 taken'].
        -- change (len (concat (@nil str))) with 0 in He1.
           specialize (He1 ltac:(lia)). unfold len in Hlong. lia.
        -- rewrite rounds_cons in H1. lia.
    + exists taken, (c :: ch'). repeat split; [lia|].
      destruct taken as [|t0 taken'].
      * change (len (concat (@nil str))) with 0 in Htop. lia.
      * rewrite rounds_cons in H1. lia.
Qed.

Lemma wrap_round_lines (lines : list str) (top : str) (below : list str) :
  Forall (fun line => len line <= width) lines -> Forall (fun line => len line <= width) (fst (wrap_round width lines top below)).
Proof.
  intros Hl. destruct (wrap_round_spec lines top below) as (lc & rest & -> & Hfit & _).
  cbn [fst]. destruct (truthy _); [|exact Hl].
  apply Forall_app. split; [exact Hl|]. constructor; [|constructor].
  pose proof (len_concat_drop_trailing_blank lc). lia.
Qed.

Lemma wrap_round_rounds (lines : list str) (top : str) (below : list str) :
  (rounds (snd (wrap_round width lines top below)) < rounds (top :: below))%nat.
Proof.
  destruct (wrap_round_spec lines top below) as (lc & rest & -> & _ & H). exact H.
Qed.

(** Enough fuel: the loop returns. *)
Lemma wrap_loop_total (fuel : nat) :
  forall lines chunks,
    (rounds chunks <= fuel)%nat ->
    exists result, wrap_loop fuel width lines chunks = Some result.
Proof.
  induction fuel as [|fuel IH]; intros lines chunks Hf.
  - destruct chunks as [|top below]; [now eexists|].
    rewrite rounds_cons in Hf. lia.
  - destruct chunks as [|top below]; [now eexists|]. simpl.
    pose proof (wrap_round_rounds lines top below) as Hr.
    destruct (wrap_round width lines top below) as [lines' chunks']. cbn [snd] in Hr.
    apply IH. lia.
Qed.

Lemma wrap_loop_lines (fuel : nat) :
  forall lines chunks result,
    Forall (fun line => len line <= width) lines ->
    wrap_loop fuel width lines chunks = Some result -> Forall (fun line => len line <= width) result.
Proof.
  induction fuel as [|fuel IH]; intros lines chunks result Hl.
  - destruct chunks; simpl; [intros [= <-]; exact Hl | discriminate].
  - destruct chunks as [|top below]; simpl; [intros [= <-]; exact Hl|].
    pose proof (wrap_round_lines lines top below Hl) as Hr.
    destruct (wrap_round width lines top below) as [lines' chunks']. cbn [fst] in Hr.
    now apply IH.
Qed.

End LoopFacts.

Section WrapFacts.

Lemma wrap_total (text : str) (width : Z) :
  0 < width -> exists lines, wrap text width = Returned lines.
Proof.
  intros Hw. unfold wrap, _wrap_chunks. destruct (Z.leb_spec width 0); [lia|].
  destruct (wrap_loop_total width ltac:(lia) (rounds (_split_chunks text)) []
              (_split_chunks text) (le_n _)) as [r ->].
  now exists r.
Qed.

Lemma wrap_fits (text : str) (width : Z) (lines : list str) :
  wrap text width = Returned lines -> Forall (fun line => len line <= width) lines.
Proof.
  unfold wrap, _wrap_chunks. destruct (Z.leb_spec width 0); [discriminate|].
  destruct wrap_loop as [r|] eqn:E; [|discriminate]. intros [= <-].
  eapply (wrap_loop_lines width ltac:(lia)); [|exact E]. constructor.
Qed.

Lemma wrap_lines_total (width : Z) (text : list str) :
  0 < width ->
  forall text_array, exists result, wrap_lines width text text_array = Returned result.
Proof.
  intros Hw. induction text as [|line r IH]; intros acc; simpl; [now eexists|].
  destruct (wrap_total line width Hw) as [ls ->]. apply IH.
Qed.

Lemma wrap_lines_fits (width : Z) (text : list str) :
  forall text_array result,
    Forall (fun line => len line <= width) text_array ->
    wrap_lines width text text_array = Returned result ->
    Forall (fun line => len line <= width) result.
Proof.
  induction text as [|line r IH]; intros acc result Hacc; simpl.
  - now intros [= <-].
  - destruct (wrap line width) as [ls| |] eqn:E; try discriminate.
    apply IH. apply Forall_app. split; [exact Hacc|]. now apply wrap_fits in E.
Qed.

End WrapFacts.

(** C5. Whatever the caption, a string or a list of lines: when the wrap
    step of [print_banner] accepts it, which it does for every caption as soon
    as the terminal has more than 20 columns, every wrapped caption line is at
    most [cols - 2 * 10] characters long. *)
Theorem wrapped_caption_lines_fit (cols : Z) (text : text_arg) :
  margin_len = 10
  /\ (2 * 10 < cols ->
      exists text_array,
        wrap_lines (cols - 2 * margin_len) (text_lines (Some text)) []
        = Returned text_array)
  /\ (forall text_array,
        wrap_lines (cols - 2 * margin_len) (text_lines (Some text)) []
        = Returned text_array ->
        Forall (fun line => len line <= cols - 2 * 10) text_array).
Proof.
  split; [reflexivity|]. split.
  - intros Hc. apply wrap_lines_total. unfold margin_len. lia.
  - intros text_array H. change (2 * 10) with (2 * margin_len).
    eapply wrap_lines_fits; [|exact H]. constructor.
Qed.

Lemma wrapped_caption_lines_fit_witness :
  let text := TextStr (lit "Lorem ipsum dolor sit amet, consectetur adipisicing elit") in
  (exists text_array,
     wrap_lines (34 - 2 * margin_len) (text_lines (Some text)) [] = Returned text_array)
  /\ Forall (fun line => len line <= 34 - 2 * 10)
       [lit "Lorem ipsum"; lit "dolor sit"; lit "amet,"; lit "consectetur";
        lit "adipisicing"; lit "elit"].
Proof.
  intros text.
  pose proof (wrapped_caption_lines_fit 34 text) as (_ & Htotal & Hfit).
  split.
  - apply Htotal. lia.
  - apply Hfit. vm_compute. reflexivity.
Defined.

(* ====================================================================== *)
(** ** textwrap: lines that wrapping leaves alone *)
(* ====================================================================== *)

Section SettledFacts.


Lemma expandtabs_plain (line : str) :
  Forall (fun c => is_ws c = true -> c = space) line -> forall line_pos, expandtabs_from tabsize line_pos line = line.
Proof.
  induction 1 as [|c line Hc _ IH]; intros line_pos; simpl; [reflexivity|].
  destruct (Ascii.eqb_spec c tab) as [->|_].
  - specialize (Hc eq_refl). discriminate Hc.
  - now rewrite IH.
Qed.

Lemma replace_whitespace_plain (line : str) :
  Forall (fun c => is_ws c = true -> c = space) line -> replace_whitespace line = line.
Proof.
  unfold replace_whitespace.
  induction 1 as [|c line Hc _ IH]; simpl; [reflexivity|]. rewrite IH.
  destruct (is_ws c); [now rewrite Hc | reflexivity].
Qed.

Lemma _munge_whitespace_plain (line : str) :
  Forall (fun c => is_ws c = true -> c = space) line -> _munge_whitespace line = line.
Proof.
  intros H. unfold _munge_whitespace, expandtabs.
  rewrite expandtabs_plain by exact H. now apply replace_whitespace_plain.
Qed.

Lemma last_app_nonempty {A} (a b : list A) (d : A) :
  b <> [] -> last (a ++ b) d = last b d.
Proof.
  intros Hb. induction a as [|x a IH]; [reflexivity|].
  simpl app. rewrite <- IH. simpl. destruct (a ++ b) eqn:E; [|reflexivity].
  apply app_eq_nil in E as [_ E]. contradiction.
Qed.

Lemma forallb_last {A} (p : A -> bool) (l : list A) (d : A) :
  l <> [] -> forallb p l = true -> p (last l d) = true.
Proof.
  induction l as [|x l IH]; [congruence|]. intros _ H.
  simpl in H. apply andb_prop in H as [Hx Hl].
  destruct l as [|y l]; [exact Hx|]. apply IH; [discriminate | exact Hl].
Qed.

(** A line that is not empty, fits, holds no whitespace but spaces and does
    not end in a whitespace character is wrapped to itself. *)
Lemma wrap_settled (line : str) (width : Z) :
  line <> [] -> len line <= width -> Forall (fun c => is_ws c = true -> c = space) line ->
  isspace (last line space) = false ->
  wrap line width = Returned [line].
Proof.
  intros Hne Hfit Hplain Hlast.
  assert (Hw : 1 <= width).
  { destruct line; [congruence|]. rewrite len_cons in Hfit.
    pose proof (len_nonneg line). lia. }
  unfold wrap, _split_chunks, _wrap_chunks.
  rewrite _munge_whitespace_plain by exact Hplain.
  destruct (Z.leb_spec width 0); [lia|].
  generalize (_split_concat line) (_split_nonempty line).
  destruct (_split line) as [|top below]; intros Hcat Hchunks;
    [simpl in Hcat; congruence|].
  rewrite rounds_cons. cbn [Nat.add wrap_loop].
  unfold wrap_round. cbv zeta. rewrite andb_false_r.
  change (len (@nil ascii)) with 0. rewrite Z.sub_0_r.
  rewrite fill_line_all by (rewrite Hcat; lia).
  cbn [app]. unfold drop_trailing_blank.
  destruct (exists_last (l := top :: below) ltac:(discriminate)) as (init & c & Hsplit).
  rewrite Hsplit in *. rewrite rev_app_distr. cbn [rev app].
  apply Forall_app in Hchunks as [_ Hc]. apply Forall_inv in Hc as Hcne.
  assert (Hblank : is_blank c = false).
  { destruct (is_blank c) eqn:B; [|reflexivity].
    apply (forallb_last _ _ space Hcne) in B.
    rewrite <- Hcat, concat_app in Hlast. simpl concat in Hlast.
    rewrite app_nil_r, last_app_nonempty in Hlast by exact Hcne. congruence. }
  rewrite Hblank.
  replace (truthy (init ++ [c])) with true by (now destruct init).
  rewrite Hcat. destruct (length top + rounds below)%nat; reflexivity.
Qed.

Lemma wrap_lines_settled (width : Z) (lines : list str) :
  Forall (fun line =>
            line <> [] /\ len line <= width /\ Forall (fun c => is_ws c = true -> c = space) line /\
            isspace (last line space) = false) lines ->
  forall text_array, wrap_lines width lines text_array = Returned (text_array ++ lines).
Proof.
  induction 1 as [|line lines (Hne & Hfit & Hplain & Hlast) _ IH]; intros acc; simpl.
  - now rewrite app_nil_r.
  - rewrite wrap_settled by assumption. rewrite IH, <- app_assoc. reflexivity.
Qed.

End SettledFacts.

(** C6, as the code has it.  The wrap step of [print_banner] returns
    unchanged every list of lines each of which is at most the target width
    long, is not empty, contains no whitespace character other than the space
    (no tab, line feed, vertical tab, form feed or carriage return) and does
    not end in a whitespace character. *)
Theorem wrap_lines_unchanged (width : Z) (lines : list str) :
  Forall (fun line =>
            len line <= width /\ line <> [] /\
            Forall (fun c => is_ws c = true -> c = space) line /\
            isspace (last line space) = false) lines ->
  wrap_lines width lines [] = Returned lines.
Proof.
  intros H. apply (wrap_lines_settled width lines).
  eapply Forall_impl; [|exact H]. simpl. tauto.
Qed.

Lemma wrap_lines_unchanged_witness :
  wrap_lines 40 [lit "  Lorem ipsum dolor sit amet,"; lit "well-known"] []
  = Returned [lit "  Lorem ipsum dolor sit amet,"; lit "well-known"].
Proof.
  apply wrap_lines_unchanged.
  repeat constructor; try discriminate;
    intros H; vm_compute in H; discriminate H.
Defined.

(** C6 as stated fails: an empty line is at most the target width long, and
    the wrap step drops it; a line that ends in a space loses the space. *)
Lemma wrap_lines_unchanged_counterexample :
  let lines := [lit "Lorem"; []; lit "ipsum "] in
  Forall (fun line => len line <= 40) lines
  /\ wrap_lines 40 lines [] = Returned [lit "Lorem"; lit "ipsum"]
  /\ wrap_lines 40 lines [] <> Returned lines.
Proof.
  cbv zeta. split; [repeat constructor; vm_compute; discriminate|].
  split; [vm_compute; reflexivity | vm_compute; discriminate].
Qed.

(* ====================================================================== *)
(** ** The caption and the rows below it *)
(* ====================================================================== *)

Section CaptionFacts.

Variables rows cols : Z.
Variable b : list str.
Variable color_bg : option str.

Lemma print_text_absent (text : option text_arg) :
  text_truthy text = false ->
  print_text rows cols b color_bg text = ([], Returned []).
Proof. intros H. unfold print_text. now rewrite H. Qed.

Lemma print_text_raises (text : option text_arg) (e : exn) :
  text_truthy text = true ->
  wrap_lines (cols - 2 * margin_len) (text_lines text) [] = Raised e ->
  print_text rows cols b color_bg text = ([], Raised e).
Proof. intros H Hw. unfold print_text. now rewrite H, Hw. Qed.

Lemma print_text_too_tall (text : option text_arg) (text_array : list str) :
  text_truthy text = true ->
  wrap_lines (cols - 2 * margin_len) (text_lines text) [] = Returned text_array ->
  rows < len b + len text_array ->
  print_text rows cols b color_bg text = ([], Raised TextHeightExceeded).
Proof.
  intros H Hw Htall. unfold print_text. rewrite H, Hw, bind_lift_returned.
  destruct (Z.gtb_spec (len b + len text_array) rows); [reflexivity | lia].
Qed.

Lemma print_text_fits (text : option text_arg) (text_array : list str) :
  text_truthy text = true ->
  wrap_lines (cols - 2 * margin_len) (text_lines text) [] = Returned text_array ->
  len b + len text_array <= rows ->
  print_text rows cols b color_bg text =
    (map (fun output => Print (caption_line cols color_bg output)) text_array,
     Returned text_array).
Proof.
  intros H Hw Hfit. unfold print_text. rewrite H, Hw, bind_lift_returned.
  destruct (Z.gtb_spec (len b + len text_array) rows); [lia|].
  rewrite bind_ret, for_each_print, bind_returned. unfold ret. cbn [fst snd].
  now rewrite app_nil_r.
Qed.

Lemma repeat_of_seq {A} (x : A) (k : nat) :
  forall start, map (fun _ => x) (seq start k) = repeat x k.
Proof. induction k as [|k IH]; intros start; simpl; [reflexivity|]. now rewrite IH. Qed.

Lemma fill_bottom_set (text_array : list str) :
  is_set color_bg = true ->
  fill_bottom rows cols b text_array color_bg =
    (repeat (Print (fill_row cols color_bg))
       (Z.to_nat (rows - (len b + len text_array) - 1)),
     Returned tt).
Proof.
  intros H. unfold fill_bottom. rewrite H, for_each_print. f_equal.
  unfold range. rewrite map_map. apply repeat_of_seq.
Qed.

Lemma hold_returns (accepts : Z -> bool) (show_for : option Z) :
  snd (hold accepts show_for) = Returned tt ->
  hold accepts show_for =
    (if show_for_truthy show_for
     then [Sleep (match show_for with Some d => d | None => 0 end); Clear] else [],
     Returned tt).
Proof.
  unfold hold. destruct (show_for_truthy show_for); [|reflexivity].
  unfold sleep. destruct (_ || _)%bool; [discriminate|].
  destruct (_ <? 0); [discriminate|].
  destruct (accepts _); [reflexivity | discriminate].
Qed.

End CaptionFacts.

(** C2, as the code has it.  For a non-empty banner that is not wider than
    the terminal and a caption that is supplied (not empty) and wrapped: when
    the banner lines and the wrapped caption lines together exceed the row
    count, [print_banner] raises the height error after it has cleared the
    screen and printed every banner line; no caption line and no fill line is
    printed. *)
Theorem print_banner_too_tall (tm : Terminal) (b : list str)
    (show_for : option Z) (color color_bg : option str) (text : option text_arg)
    (text_array : list str) :
  b <> [] -> width_of b <= cols tm ->
  text_truthy text = true ->
  wrap_lines (cols tm - 2 * margin_len) (text_lines text) [] = Returned text_array ->
  rows tm < len b + len text_array ->
  print_banner tm b show_for color color_bg text =
    (Clear ::
       map (fun line => Print (colored color color_bg
              (padded (cols tm) (left_padding (width_of b) (cols tm)) line))) b,
     Raised TextHeightExceeded).
Proof.
  intros Hne Hfit Htext Hwrap Htall.
  rewrite print_banner_fits by assumption. unfold below_banner.
  rewrite (print_text_too_tall _ _ _ _ _ text_array) by assumption.
  cbn [bind fst snd]. now rewrite app_nil_r.
Qed.

Lemma print_banner_too_tall_witness :
  print_banner (terminal 3 40) [lit "####"; lit "#  #"; lit "####"]
    None None None (Some (TextStr (lit "Hello world")))
  = (Clear ::
       map (fun line => Print (colored None None (padded 40 18 line)))
         [lit "####"; lit "#  #"; lit "####"],
     Raised TextHeightExceeded).
Proof.
  apply (print_banner_too_tall (terminal 3 40)
           [lit "####"; lit "#  #"; lit "####"] None None None
           (Some (TextStr (lit "Hello world"))) [lit "Hello world"]).
  - discriminate.
  - vm_compute. discriminate.
  - reflexivity.
  - vm_compute. reflexivity.
  - vm_compute. reflexivity.
Defined.

(** C2 as stated fails: on a terminal of 3 rows, a banner of 3 lines and a
    caption of one line exceed the row count, and when the height error is
    raised the screen has been cleared and the three banner lines printed. *)
Lemma print_banner_too_tall_counterexample :
  let tm := (terminal 3 40) in
  let b := [lit "####"; lit "#  #"; lit "####"] in
  let text := Some (TextStr (lit "Hello world")) in
  wrap_lines (cols tm - 2 * margin_len) (text_lines text) [] = Returned [lit "Hello world"]
  /\ rows tm < len b + len [lit "Hello world"]
  /\ result (print_banner tm b None None None text) = Raised TextHeightExceeded
  /\ trace (print_banner tm b None None None text) =
       [Clear;
        Print (lit "                  ####                  ");
        Print (lit "                  #  #                  ");
        Print (lit "                  ####                  ")]
  /\ trace (print_banner tm b None None None text) <> [].
Proof.
  cbv zeta. repeat split; try (vm_compute; reflexivity).
  vm_compute. discriminate.
Qed.

(** C7, as the code has it.  In a render that returns, with a background
    colour set, the trace is: the clearing, the banner lines, the wrapped
    caption lines (none without a caption), then exactly
    max(0, R - (banner lines + wrapped caption lines) - 1) lines made of the
    background code, C spaces and the reset code, then the hold if one is
    set. *)
Theorem fill_rows_after_content (tm : Terminal) (b : list str)
    (show_for : option Z) (color color_bg : option str) (text : option text_arg) :
  is_set color_bg = true ->
  result (print_banner tm b show_for color color_bg text) = Returned tt ->
  exists text_array,
    (if text_truthy text
     then wrap_lines (cols tm - 2 * margin_len) (text_lines text) [] = Returned text_array
     else text_array = [])
    /\ trace (print_banner tm b show_for color color_bg text) =
         Clear ::
         map (fun line => Print (colored color color_bg
                (padded (cols tm) (left_padding (width_of b) (cols tm)) line))) b
         ++ map (fun output => Print (caption_line (cols tm) color_bg output)) text_array
         ++ repeat (Print (value color_bg ++ mul (cols tm) [space] ++ RESET_COLOR))
              (Z.to_nat (Z.max 0 (rows tm - (len b + len text_array) - 1)))
         ++ (if show_for_truthy show_for
             then [Sleep (match show_for with Some d => d | None => 0 end); Clear]
             else []).
Proof.
  intros Hbg Hres. unfold result, trace in *.
  assert (Hne : b <> [])
    by (intros ->; rewrite print_banner_nil in Hres; discriminate).
  destruct (Z.le_gt_cases (width_of b) (cols tm)) as [Hfit|Hwide];
    [|rewrite print_banner_wide in Hres by assumption; discriminate].
  rewrite print_banner_fits in * by assumption. cbn [fst snd] in *.
  unfold below_banner in *.
  assert (Hnat : forall n, Z.to_nat (Z.max 0 n) = Z.to_nat n) by (intros; lia).
  assert (Htail : forall text_array,
    snd (fill_bottom (rows tm) (cols tm) b text_array color_bg ;;
         hold (sleeps tm) show_for) = Returned tt ->
    fst (fill_bottom (rows tm) (cols tm) b text_array color_bg ;;
         hold (sleeps tm) show_for) =
      repeat (Print (value color_bg ++ mul (cols tm) [space] ++ RESET_COLOR))
        (Z.to_nat (Z.max 0 (rows tm - (len b + len text_array) - 1)))
      ++ (if show_for_truthy show_for
          then [Sleep (match show_for with Some d => d | None => 0 end); Clear]
          else [])).
  { intros ta. rewrite fill_bottom_set, bind_returned by exact Hbg. cbn [fst snd].
    intros H. rewrite (hold_returns _ _ H), Hnat. reflexivity. }
  destruct (text_truthy text) eqn:Htext.
  - destruct (wrap_lines (cols tm - 2 * margin_len) (text_lines text) [])
      as [text_array|e|] eqn:Hwrap.
    + destruct (Z.le_gt_cases (len b + len text_array) (rows tm)) as [Hrows|Htall].
      * rewrite (print_text_fits _ _ _ _ _ text_array) in * by assumption.
        rewrite bind_returned in *. cbn [fst snd] in *.
        exists text_array. split; [reflexivity|].
        rewrite (Htail _ Hres). reflexivity.
      * rewrite (print_text_too_tall _ _ _ _ _ text_array) in Hres by assumption.
        discriminate.
    + rewrite (print_text_raises _ _ _ _ _ e) in Hres by assumption. discriminate.
    + unfold print_text in Hres. rewrite Htext, Hwrap in Hres. discriminate.
  - rewrite print_text_absent in * by assumption.
    rewrite bind_returned in *. cbn [fst snd app] in *.
    exists []. split; [reflexivity|]. rewrite (Htail _ Hres). reflexivity.
Qed.

Lemma fill_rows_after_content_witness :
  let tm := (terminal 6 30) in
  let text := Some (TextStr (lit "Hello")) in
  exists text_array,
    wrap_lines (30 - 2 * margin_len) (text_lines text) [] = Returned text_array
    /\ trace (print_banner tm [lit "##"] None None (Some BLUE_BG) text) =
         Clear ::
         map (fun line => Print (colored None (Some BLUE_BG) (padded 30 14 line)))
           [lit "##"]
         ++ map (fun output => Print (caption_line 30 (Some BLUE_BG) output)) text_array
         ++ repeat (Print (BLUE_BG ++ mul 30 [space] ++ RESET_COLOR))
              (Z.to_nat (Z.max 0 (6 - (len [lit "##"] + len text_array) - 1)))
         ++ [].
Proof.
  intros tm text.
  apply (fill_rows_after_content tm [lit "##"] None None (Some BLUE_BG) text).
  - reflexivity.
  - vm_compute. reflexivity.
Defined.

(** C7 as stated fails: on a terminal of 3 rows a banner of 3 lines is
    rendered with no caption; R - 3 - 1 is -1, which no number of emitted
    lines equals, and nothing is printed after the banner. *)
Lemma fill_rows_after_content_counterexample :
  let tm := (terminal 3 8) in
  let b := [lit "####"; lit "#  #"; lit "####"] in
  result (print_banner tm b None None (Some BLUE_BG) None) = Returned tt
  /\ rows tm - (len b + len (@nil str)) - 1 = -1
  /\ trace (print_banner tm b None None (Some BLUE_BG) None) =
       Clear :: map (fun line => Print (colored None (Some BLUE_BG) (padded 8 2 line))) b
  /\ ~ exists n : nat,
         Z.of_nat n = rows tm - (len b + len (@nil str)) - 1
         /\ trace (print_banner tm b None None (Some BLUE_BG) None) =
              Clear ::
              map (fun line => Print (colored None (Some BLUE_BG) (padded 8 2 line))) b
              ++ repeat (Print (BLUE_BG ++ mul 8 [space] ++ RESET_COLOR)) n.
Proof.
  cbv zeta. repeat split; try (vm_compute; reflexivity).
  intros (n & Hn & _). change (Z.of_nat n = -1) in Hn. lia.
Qed.

(* ====================================================================== *)
(** ** A terminal too narrow for the caption *)
(* ====================================================================== *)

Section NarrowFacts.

Lemma has_line_truthy (text : text_arg) :
  (exists line, In line (text_lines (Some text)) /\ line <> []) ->
  text_truthy (Some text) = true.
Proof.
  intros (line & Hin & Hne). destruct text as [s|l]; simpl in *.
  - destruct s; [|reflexivity]. destruct Hin as [<-|[]].
    exfalso. apply Hne. reflexivity.
  - destruct l; [destruct Hin | reflexivity].
Qed.

Lemma wrap_lines_invalid_width (width : Z) (text text_array : list str) :
  width <= 0 -> text <> [] ->
  wrap_lines width text text_array = Raised (InvalidWidth width).
Proof.
  intros Hw Hne. destruct text as [|line r]; [congruence|]. simpl.
  unfold wrap, _wrap_chunks. destruct (Z.leb_spec width 0); [reflexivity | lia].
Qed.

End NarrowFacts.

(** C10, as the code has it.  On a terminal of at most 20 columns, for a
    non-empty banner that is not wider than the terminal and a caption with at
    least one non-empty line, [print_banner] clears the screen, prints every
    banner line and then fails with the invalid-width ValueError of the
    wrapping step, which is neither of the two layout errors. *)
Theorem print_banner_narrow_terminal (tm : Terminal) (b : list str)
    (show_for : option Z) (color color_bg : option str) (text : text_arg) :
  b <> [] -> width_of b <= cols tm ->
  cols tm <= 2 * 10 ->
  (exists line, In line (text_lines (Some text)) /\ line <> []) ->
  print_banner tm b show_for color color_bg (Some text) =
    (Clear ::
       map (fun line => Print (colored color color_bg
              (padded (cols tm) (left_padding (width_of b) (cols tm)) line))) b,
     Raised (InvalidWidth (cols tm - 2 * 10)))
  /\ InvalidWidth (cols tm - 2 * 10) <> BannerWidthExceeded
  /\ InvalidWidth (cols tm - 2 * 10) <> TextHeightExceeded.
Proof.
  intros Hne Hfit Hnarrow Hline. split; [|split; discriminate].
  rewrite print_banner_fits by assumption. unfold below_banner.
  rewrite (print_text_raises _ _ _ _ _ (InvalidWidth (cols tm - 2 * margin_len))).
  - cbn [bind fst snd]. now rewrite app_nil_r.
  - now apply has_line_truthy.
  - apply wrap_lines_invalid_width; [unfold margin_len; lia|].
    destruct Hline as (line & Hin & _). intros E. rewrite E in Hin. destruct Hin.
Qed.

Lemma print_banner_narrow_terminal_witness :
  print_banner (terminal 10 20) [lit "####"] None None None
    (Some (TextStr (lit "Hello")))
  = ([Clear; Print (lit "        ####        ")], Raised (InvalidWidth 0)).
Proof.
  apply (print_banner_narrow_terminal (terminal 10 20) [lit "####"]
           None None None (TextStr (lit "Hello"))).
  - discriminate.
  - vm_compute. discriminate.
  - vm_compute. discriminate.
  - exists (lit "Hello"). split; [now left | discriminate].
Defined.

(** C10 as stated fails: on a terminal of 20 columns with a caption of one
    non-empty line, a banner of 21 columns makes [print_banner] fail with the
    width error, a layout error, before anything is printed. *)
Lemma print_banner_narrow_terminal_counterexample :
  let tm := (terminal 10 20) in
  let text := TextStr (lit "Hello") in
  cols tm <= 2 * 10
  /\ (exists line, In line (text_lines (Some text)) /\ line <> [])
  /\ print_banner tm [lit "#####################"] None None None (Some text)
     = ([], Raised BannerWidthExceeded)
  /\ result (print_banner tm [lit "#####################"] None None None (Some text))
     <> Raised (InvalidWidth (cols tm - 2 * 10)).
Proof.
  cbv zeta. split; [vm_compute; discriminate|]. split.
  - exists (lit "Hello"). split; [now left | discriminate].
  - split; [reflexivity | vm_compute; discriminate].
Qed.

(* ====================================================================== *)
(** ** The model never runs out of fuel *)
(* ====================================================================== *)

Section Fuel.

Lemma wrap_not_out_of_fuel (text : str) (width : Z) : wrap text width <> OutOfFuel.
Proof.
  destruct (Z.le_gt_cases width 0) as [H|H].
  - unfold wrap, _wrap_chunks. destruct (Z.leb_spec width 0); [discriminate | lia].
  - destruct (wrap_total text width ltac:(lia)) as [lines ->]. discriminate.
Qed.

Lemma wrap_lines_not_out_of_fuel (width : Z) (text : list str) :
  forall text_array, wrap_lines width text text_array <> OutOfFuel.
Proof.
  induction text as [|line r IH]; intros acc; simpl; [discriminate|].
  pose proof (wrap_not_out_of_fuel line width).
  destruct (wrap line width); [apply IH | discriminate | congruence].
Qed.

Lemma bind_result_out_of_fuel {A B} (m : IO A) (f : A -> IO B) :
  snd (bind m f) = OutOfFuel ->
  snd m = OutOfFuel \/ exists a, snd m = Returned a /\ snd (f a) = OutOfFuel.
Proof.
  destruct m as [t [a| e' |]]; simpl.
  - destruct (f a) as [t' r] eqn:E. simpl. intros ->. right. exists a.
    rewrite E. split; reflexivity.
  - discriminate.
  - intros _. left. reflexivity.
Qed.

(** Every call of [print_banner] ends as a Python call does: it returns or
    it raises. *)
Lemma print_banner_ends (tm : Terminal) (b : list str) (show_for : option Z)
    (color color_bg : option str) (text : option text_arg) :
  result (print_banner tm b show_for color color_bg text) <> OutOfFuel.
Proof.
  unfold result, print_banner. intros H.
  repeat (apply bind_result_out_of_fuel in H as [H | (? & _ & H)]);
    try discriminate H.
  - unfold lift, max_key_len in H. destruct b; discriminate H.
  - unfold left_fill_of in H.
    destruct (_ >? _); [discriminate H|]. destruct (_ =? _); discriminate H.
  - unfold print_lines in H. rewrite for_each_print in H. discriminate H.
  - unfold print_text in H. destruct (text_truthy text); [|discriminate H].
    repeat (apply bind_result_out_of_fuel in H as [H | (? & _ & H)]);
      try discriminate H.
    + now apply wrap_lines_not_out_of_fuel in H.
    + destruct (_ >? _); discriminate H.
    + rewrite for_each_print in H. discriminate H.
  - unfold fill_bottom in H. destruct (is_set color_bg); [|discriminate H].
    rewrite for_each_print in H. discriminate H.
  - unfold hold in H. destruct (show_for_truthy show_for); [|discriminate H].
    apply bind_result_out_of_fuel in H as [H | (? & _ & H)]; [|discriminate H].
    unfold sleep in H. set (accepts := sleeps tm) in H. destruct (_ || _)%bool; [discriminate H|].
    destruct (_ <? 0); [discriminate H|]. destruct (accepts _); discriminate H.
Qed.

End Fuel.

(* ====================================================================== *)
(** ** The sound player *)
(* ====================================================================== *)

Section SoundFacts.

Import Sounds.

Variable env : Env.

Lemma search_true (cmd : str) (paths : list str) :
  search env cmd paths = true ->
  exists dir,
    In dir paths /\ isfile env (cmd_path dir cmd) = true
    /\ access_X_OK env (cmd_path dir cmd) = true.
Proof.
  induction paths as [|path r IH]; simpl; [discriminate|].
  destruct (isfile env (cmd_path path cmd) && access_X_OK env (cmd_path path cmd))%bool
    eqn:E.
  - intros _. apply andb_prop in E as [E1 E2]. exists path. auto.
  - intros H. destruct (IH H) as (dir & Hin & Hd). exists dir. auto.
Qed.

Lemma search_false (cmd : str) (paths : list str) :
  (forall dir, In dir paths ->
     isfile env (cmd_path dir cmd) = false \/ access_X_OK env (cmd_path dir cmd) = false) ->
  search env cmd paths = false.
Proof.
  induction paths as [|path r IH]; simpl; [reflexivity|]. intros H.
  destruct (H path (or_introl eq_refl)) as [-> | ->];
    rewrite ?andb_false_r; simpl; apply IH; auto.
Qed.

Lemma launch_trace (player sound_path : str) (blocking : bool) :
  launch env player sound_path blocking =
    if can_start env [player; sound_path]
    then (Popen [player; sound_path] :: (if blocking then [Wait] else []), Returned tt)
    else ([], Raised PopenOSError).
Proof.
  unfold launch. destruct (can_start env _); [|reflexivity].
  rewrite bind_emit. now destruct blocking.
Qed.

End SoundFacts.

(** What [play] does while the search path is set.  It starts a child
    process only when the sound file exists and a known player, omxplayer or
    afplay, is an executable file in an entry of the search path, and the
    process is that player on the sound path.  When the file does not exist,
    and when the search path holds no known player, it prints one message,
    starts no process and returns. *)
Lemma play_spawn_conditions (env : Sounds.Env) (sound_path : str) (blocking : bool) :
  (forall argv,
     In (Popen argv) (trace (Sounds.play env sound_path blocking)) ->
     Sounds.isfile env sound_path = true
     /\ exists player search_path dir,
          (player = Sounds.omxplayer \/ player = Sounds.afplay)
          /\ Sounds.PATH env = Some search_path
          /\ In dir (split Sounds.pathsep search_path)
          /\ Sounds.isfile env (Sounds.cmd_path dir player) = true
          /\ Sounds.access_X_OK env (Sounds.cmd_path dir player) = true
          /\ argv = [player; sound_path])
  /\ (Sounds.isfile env sound_path = false ->
      Sounds.play env sound_path blocking =
        ([Print (Sounds.not_found_message sound_path)], Returned tt))
  /\ (forall search_path,
        Sounds.isfile env sound_path = true ->
        Sounds.PATH env = Some search_path ->
        (forall player dir,
           player = Sounds.omxplayer \/ player = Sounds.afplay ->
           In dir (split Sounds.pathsep search_path) ->
           Sounds.isfile env (Sounds.cmd_path dir player) = false
           \/ Sounds.access_X_OK env (Sounds.cmd_path dir player) = false) ->
        Sounds.play env sound_path blocking =
          ([Print Sounds.no_player_message], Returned tt)).
Proof.
  split; [|split].
  - intros argv. unfold trace, Sounds.play.
    destruct (Sounds.isfile env sound_path); simpl negb; cbv iota.
    2:{ simpl. intros [H|[]]. discriminate H. }
    unfold Sounds._on_path. destruct (Sounds.PATH env) as [search_path|];
      [|simpl; intros []].
    destruct (Sounds.search env Sounds.omxplayer _) eqn:Eo.
    + rewrite bind_lift_returned, launch_trace.
      destruct (Sounds.can_start env _); [|intros []]. cbn [fst].
      intros [H|H].
      * injection H as <-. split; [reflexivity|].
        apply search_true in Eo as (dir & Hin & Hf & Hx).
        exists Sounds.omxplayer, search_path, dir. auto 10.
      * destruct blocking; [destruct H as [H|[]]; discriminate H | destruct H].
    + rewrite bind_lift_returned.
      destruct (Sounds.search env Sounds.afplay _) eqn:Ea.
      * rewrite bind_lift_returned, launch_trace.
        destruct (Sounds.can_start env _); [|intros []]. cbn [fst].
        intros [H|H].
        -- injection H as <-. split; [reflexivity|].
           apply search_true in Ea as (dir & Hin & Hf & Hx).
           exists Sounds.afplay, search_path, dir. auto 10.
        -- destruct blocking; [destruct H as [H|[]]; discriminate H | destruct H].
      * rewrite bind_lift_returned. simpl. intros [H|[]]. discriminate H.
  - intros Hfile. unfold Sounds.play. now rewrite Hfile.
  - intros search_path Hfile Hpath Hnone. unfold Sounds.play, Sounds._on_path.
    rewrite Hfile, Hpath. simpl negb. cbv iota.
    rewrite !search_false by (intros dir Hin; apply Hnone; auto).
    now rewrite !bind_lift_returned.
Qed.

(** C8. The claim holds while the search path is set, and fails on the
    code where it is not: the sound file exists, the environment has no PATH
    variable and no file at all is executable, so that no known player is
    found.  The claim, and the docstring of [play] (Exceptions:
    None), ask for a message and a normal return; the lookup of PATH in
    [_on_path] raises KeyError instead, with nothing printed and no process
    started. *)
Theorem play_raises_without_search_path :
  let env := {| Sounds.PATH := None;
                Sounds.isfile := fun p => Str.eqb p (lit "sounds/tada.wav");
                Sounds.access_X_OK := fun _ => false;
                Sounds.can_start := fun _ => true |} in
  Sounds.isfile env (lit "sounds/tada.wav") = true
  /\ (forall candidate, Sounds.access_X_OK env candidate = false)
  /\ Sounds.play env (lit "sounds/tada.wav") true = ([], Raised KeyErrorPATH)
  /\ Sounds.play env (lit "sounds/tada.wav") true
     <> ([Print Sounds.no_player_message], Returned tt).
Proof.
  cbv zeta. split; [reflexivity|]. split; [reflexivity|].
  split; [reflexivity | discriminate].
Qed.

(* ====================================================================== *)
(** ** Splitting and joining; load_banner *)
(* ====================================================================== *)

Section SplitJoinFacts.

Variable sep : ascii.

Lemma split_pieces_cons (cur s : str) :
  exists first others, split_pieces sep cur s = first :: others.
Proof.
  revert cur. induction s as [|c s IH]; intros cur; simpl; [now eauto|].
  destruct (Ascii.eqb c sep); [now eauto | apply IH].
Qed.

Lemma join_split_pieces (s : str) :
  forall cur, join [sep] (split_pieces sep cur s) = rev cur ++ s.
Proof.
  induction s as [|c s IH]; intros cur; simpl.
  - now rewrite app_nil_r.
  - destruct (Ascii.eqb_spec c sep) as [->|Hc].
    + destruct (split_pieces_cons [] s) as (first & others & E).
      pose proof (IH []) as H. rewrite E in *.
      change (join [sep] (rev cur :: first :: others))
        with (rev cur ++ [sep] ++ join [sep] (first :: others)).
      rewrite H. reflexivity.
    + rewrite IH. simpl. now rewrite <- app_assoc.
Qed.

Lemma split_pieces_free (s : str) :
  forall cur, ~ In sep cur -> Forall (fun piece => ~ In sep piece) (split_pieces sep cur s).
Proof.
  induction s as [|c s IH]; intros cur Hcur; simpl.
  - constructor; [|constructor]. now rewrite <- in_rev.
  - destruct (Ascii.eqb_spec c sep) as [->|Hc].
    + constructor; [now rewrite <- in_rev | apply IH; intros []].
    + apply IH. intros [H|H]; [congruence | contradiction].
Qed.

Lemma length_split_pieces (s : str) :
  forall cur, length (split_pieces sep cur s) = S (count_occ ascii_dec s sep).
Proof.
  induction s as [|c s IH]; intros cur; simpl; [reflexivity|].
  destruct (Ascii.eqb_spec c sep) as [->|Hc].
  - destruct (ascii_dec sep sep); [|congruence]. simpl. now rewrite IH.
  - destruct (ascii_dec c sep); [congruence|]. apply IH.
Qed.

Lemma split_pieces_app_free (x : str) :
  ~ In sep x ->
  forall cur s, split_pieces sep cur (x ++ s) = split_pieces sep (rev x ++ cur) s.
Proof.
  induction x as [|c x IH]; intros Hx cur s; [reflexivity|]. simpl.
  destruct (Ascii.eqb_spec c sep) as [->|Hc]; [exfalso; apply Hx; now left|].
  rewrite IH by (intros H; apply Hx; now right). now rewrite <- app_assoc.
Qed.

Lemma split_pieces_join (lines : list str) :
  Forall (fun line => ~ In sep line) lines ->
  forall cur first others,
    lines = first :: others ->
    split_pieces sep cur (join [sep] lines) = (rev cur ++ first) :: others.
Proof.
  induction 1 as [|x r Hx Hr IH]; intros cur first others E; [discriminate|].
  injection E as <- <-. destruct r as [|y r].
  - cbn [join]. rewrite <- (app_nil_r x) at 1.
    rewrite split_pieces_app_free by exact Hx. simpl.
    now rewrite rev_app_distr, rev_involutive.
  - cbn [join]. rewrite split_pieces_app_free by exact Hx. simpl.
    rewrite Ascii.eqb_refl, rev_app_distr, rev_involutive.
    f_equal. apply (IH [] y r eq_refl).
Qed.

End SplitJoinFacts.

Section ReadTextFacts.

Lemma split_pieces_chars (sep : ascii) (s : str) :
  forall cur,
    Forall (fun piece => forall c, In c piece -> In c cur \/ In c s)
      (split_pieces sep cur s).
Proof.
  induction s as [|x s IH]; intros cur; simpl.
  - constructor; [|constructor]. intros c Hc. left. now apply in_rev.
  - destruct (Ascii.eqb x sep).
    + constructor.
      * intros c Hc. left. now apply in_rev.
      * eapply Forall_impl; [|apply (IH [])]. cbv beta.
        intros piece H c Hc. destruct (H c Hc) as [[]|Hs]. right. now right.
    + eapply Forall_impl; [|apply (IH (x :: cur))]. cbv beta.
      intros piece H c Hc. destruct (H c Hc) as [[->|Hcur]|Hs];
        [right; now left | now left | right; now right].
Qed.

Lemma in_join (sep : str) (pieces : list str) (c : ascii) :
  In c (join sep pieces) -> In c sep \/ exists x, In x pieces /\ In c x.
Proof.
  induction pieces as [|x r IH]; [intros []|]. destruct r as [|y r].
  - simpl. intros H. right. exists x. auto.
  - change (join sep (x :: y :: r)) with (x ++ sep ++ join sep (y :: r)).
    intros H. apply in_app_or in H as [H|H]; [right; exists x; simpl; auto|].
    apply in_app_or in H as [H|H]; [now left|].
    destruct (IH H) as [Hs|(z & Hz & Hc)]; [now left|].
    right. exists z. split; [now right | exact Hc].
Qed.

(** What is read holds no carriage return. *)
Lemma read_text_no_cr (s : str) :
  ~ In carriage_return (read_text s)
  /\ forall c, ~ In carriage_return (read_text (c :: s)).
Proof.
  induction s as [|d s [IH1 IH2]].
  - split; [intros []|]. intros c. cbn [read_text].
    destruct (Ascii.eqb_spec c carriage_return) as [->|Hc].
    + intros [H|[]]. discriminate H.
    + intros [H|[]]. congruence.
  - split; [apply IH2|]. intros c.
    change (read_text (c :: d :: s)) with
      (if Ascii.eqb c carriage_return
       then newline :: (if Ascii.eqb d newline then read_text s else read_text (d :: s))
       else c :: read_text (d :: s)).
    destruct (Ascii.eqb_spec c carriage_return) as [->|Hc].
    + intros [H|H]; [discriminate H|].
      destruct (Ascii.eqb d newline); [now apply IH1 | now apply (IH2 d)].
    + intros [H|H]; [congruence | now apply (IH2 d)].
Qed.

(** A text without carriage return is read as it is. *)
Lemma read_text_id (s : str) : ~ In carriage_return s -> read_text s = s.
Proof.
  induction s as [|c s IH]; [reflexivity|]. intros H. cbn [read_text].
  destruct (Ascii.eqb_spec c carriage_return) as [->|Hc]; [exfalso; apply H; now left|].
  rewrite IH; [reflexivity|]. intros Hs. apply H. now right.
Qed.

End ReadTextFacts.

(** X1. [load_banner] loses nothing of what the file object reads: joining
    the lines it returns with line feeds gives back the text that [read]
    returns, that is the characters of the file with every carriage return
    and line feed pair, and every other carriage return, turned into a line
    feed; no line holds a line feed or a carriage return, and there is one
    line more than there are line feeds in that text. *)
Theorem load_banner_join (decoded : str) :
  join [newline] (load_banner decoded) = read_text decoded
  /\ Forall (fun line => ~ In newline line /\ ~ In carriage_return line)
       (load_banner decoded)
  /\ length (load_banner decoded) = S (count_occ ascii_dec (read_text decoded) newline).
Proof.
  unfold load_banner, split. repeat split.
  - apply (join_split_pieces newline (read_text decoded) []).
  - pose proof (split_pieces_free newline (read_text decoded) [] (fun H => H)) as Hlf.
    pose proof (split_pieces_chars newline (read_text decoded) []) as Hch.
    rewrite Forall_forall in *. intros line Hline. split; [now apply Hlf|].
    intros Hcr. destruct (Hch line Hline _ Hcr) as [[]|H].
    now apply (proj1 (read_text_no_cr decoded)).
  - apply length_split_pieces.
Qed.

(** X2. [load_banner] reads back what was written: for a non-empty list of
    lines none of which holds a line feed or a carriage return, loading the
    text made of the lines joined by line feeds returns the list. *)
Theorem load_banner_of_join (lines : list str) :
  lines <> [] ->
  Forall (fun line => ~ In newline line /\ ~ In carriage_return line) lines ->
  load_banner (join [newline] lines) = lines.
Proof.
  intros Hne Hfree. destruct lines as [|first others]; [congruence|].
  unfold load_banner, split. rewrite read_text_id.
  - assert (Hlf : Forall (fun line => ~ In newline line) (first :: others))
      by (eapply Forall_impl; [|exact Hfree]; cbv beta; tauto).
    now rewrite (split_pieces_join newline _ Hlf [] first others eq_refl).
  - intros H. apply in_join in H as [[H|[]]|(x & Hx & Hc)]; [discriminate H|].
    rewrite Forall_forall in Hfree. now apply (proj2 (Hfree x Hx)).
Qed.

Lemma load_banner_of_join_witness :
  load_banner (join [newline] [lit "####"; []; lit "#  #"])
  = [lit "####"; []; lit "#  #"].
Proof.
  apply load_banner_of_join.
  - discriminate.
  - repeat (apply Forall_cons;
            [split; intros H; vm_compute in H; intuition discriminate|]).
    apply Forall_nil.
Defined.

(* ====================================================================== *)
(** ** The whole render, case by case *)
(* ====================================================================== *)

Section RenderFacts.

Variable accepts : Z -> bool.

Lemma hold_unset (show_for : option Z) :
  show_for_truthy show_for = false -> hold accepts show_for = ([], Returned tt).
Proof. intros H. unfold hold. now rewrite H. Qed.

Lemma sleep_cases (d : Z) :
  sleep accepts d =
    if ((d <? - sleep_max) || (sleep_max <? d))%bool then ([], Raised SleepOverflow)
    else if d <? 0 then ([], Raised SleepNegative)
    else if accepts d then ([Sleep d], Returned tt)
    else ([], Raised SleepOSError).
Proof. reflexivity. Qed.

Lemma hold_some (d : Z) :
  d <> 0 -> hold accepts (Some d) = (sleep accepts d ;; clear_screen).
Proof.
  intros H. unfold hold, show_for_truthy.
  now destruct (Z.eqb_spec d 0); [contradiction|].
Qed.

Lemma hold_positive (d : Z) :
  0 < d <= sleep_max -> accepts d = true ->
  hold accepts (Some d) = ([Sleep d; Clear], Returned tt).
Proof.
  intros H Ha. pose proof (eq_refl : sleep_max = 9223372036) as Hm.
  rewrite hold_some, sleep_cases by lia.
  replace (d <? - sleep_max) with false by (symmetry; apply Z.ltb_ge; lia).
  replace (sleep_max <? d) with false by (symmetry; apply Z.ltb_ge; lia).
  replace (d <? 0) with false by (symmetry; apply Z.ltb_ge; lia).
  now rewrite Ha.
Qed.

Lemma hold_refused (d : Z) :
  0 < d <= sleep_max -> accepts d = false ->
  hold accepts (Some d) = ([], Raised SleepOSError).
Proof.
  intros H Ha. pose proof (eq_refl : sleep_max = 9223372036) as Hm.
  rewrite hold_some, sleep_cases by lia.
  replace (d <? - sleep_max) with false by (symmetry; apply Z.ltb_ge; lia).
  replace (sleep_max <? d) with false by (symmetry; apply Z.ltb_ge; lia).
  replace (d <? 0) with false by (symmetry; apply Z.ltb_ge; lia).
  now rewrite Ha.
Qed.

Lemma hold_negative (d : Z) :
  - sleep_max <= d < 0 -> hold accepts (Some d) = ([], Raised SleepNegative).
Proof.
  intros H. pose proof (eq_refl : sleep_max = 9223372036) as Hm.
  rewrite hold_some, sleep_cases by lia.
  replace (d <? - sleep_max) with false by (symmetry; apply Z.ltb_ge; lia).
  replace (sleep_max <? d) with false by (symmetry; apply Z.ltb_ge; lia).
  replace (d <? 0) with true by (symmetry; apply Z.ltb_lt; lia).
  reflexivity.
Qed.

Lemma hold_overflow (d : Z) :
  d < - sleep_max \/ sleep_max < d ->
  hold accepts (Some d) = ([], Raised SleepOverflow).
Proof.
  intros H. pose proof (eq_refl : sleep_max = 9223372036) as Hm.
  rewrite hold_some, sleep_cases by lia.
  replace ((d <? - sleep_max) || (sleep_max <? d))%bool with true; [reflexivity|].
  symmetry. apply orb_true_iff.
  destruct H; [left; apply Z.ltb_lt | right; apply Z.ltb_lt]; lia.
Qed.

Lemma fill_bottom_unset (rows cols : Z) (b text_array : list str) (color_bg : option str) :
  is_set color_bg = false ->
  fill_bottom rows cols b text_array color_bg = ([], Returned tt).
Proof. intros H. unfold fill_bottom. now rewrite H. Qed.

Lemma fill_bottom_returns (rows cols : Z) (b text_array : list str) (color_bg : option str) :
  snd (fill_bottom rows cols b text_array color_bg) = Returned tt.
Proof.
  unfold fill_bottom. destruct (is_set color_bg); [|reflexivity].
  now rewrite for_each_print.
Qed.

Lemma text_lines_nonempty (text : option text_arg) :
  text_truthy text = true -> text_lines text <> [].
Proof.
  destruct text as [[s|l]|]; simpl; try discriminate.
  - intros _. unfold split.
    destruct (split_pieces_cons newline [] s) as (f & o & ->). discriminate.
  - destruct l; [discriminate|]. intros _. discriminate.
Qed.

(** What follows the banner, in every case. *)
Lemma below_banner_cases (rows cols : Z) (b : list str) (show_for : option Z)
    (color_bg : option str) (text : option text_arg) :
  below_banner accepts rows cols b show_for color_bg text =
    if text_truthy text then
      match wrap_lines (cols - 2 * margin_len) (text_lines text) [] with
      | Returned text_array =>
          if len b + len text_array >? rows then ([], Raised TextHeightExceeded)
          else
            (map (fun output => Print (caption_line cols color_bg output)) text_array
             ++ fst (fill_bottom rows cols b text_array color_bg)
             ++ fst (hold accepts show_for),
             snd (hold accepts show_for))
      | Raised e => ([], Raised e)
      | OutOfFuel => ([], OutOfFuel)
      end
    else
      (fst (fill_bottom rows cols b [] color_bg) ++ fst (hold accepts show_for),
       snd (hold accepts show_for)).
Proof.
  unfold below_banner.
  assert (Htail : forall ta,
    (fill_bottom rows cols b ta color_bg ;; hold accepts show_for) =
    (fst (fill_bottom rows cols b ta color_bg) ++ fst (hold accepts show_for),
     snd (hold accepts show_for))).
  { intros ta. pose proof (fill_bottom_returns rows cols b ta color_bg) as H.
    destruct (fill_bottom rows cols b ta color_bg) as [t r]. cbn [snd fst] in *.
    subst r. rewrite bind_returned. reflexivity. }
  destruct (text_truthy text) eqn:Htext.
  - destruct (wrap_lines (cols - 2 * margin_len) (text_lines text) [])
      as [text_array|e|] eqn:Hwrap.
    + destruct (Z.gtb_spec (len b + len text_array) rows) as [Htall|Hfit].
      * rewrite (print_text_too_tall _ _ _ _ _ text_array) by (assumption || lia).
        reflexivity.
      * rewrite (print_text_fits _ _ _ _ _ text_array) by assumption.
        rewrite bind_returned, Htail. cbn [fst snd]. reflexivity.
    + rewrite (print_text_raises _ _ _ _ _ e) by assumption. reflexivity.
    + unfold print_text. rewrite Htext, Hwrap. reflexivity.
  - rewrite print_text_absent by assumption. rewrite bind_returned, Htail.
    reflexivity.
Qed.

End RenderFacts.

(** X3. Whatever a file holds, the banner loaded from it is accepted by the
    width computation: [print_banner] never fails on it with the ValueError of
    an empty sequence.  An empty file loads as one empty line, which a
    terminal of [C >= 0] columns shows as one row of [C] spaces. *)
Theorem print_banner_loaded (tm : Terminal) (contents : str)
    (show_for : option Z) (color color_bg : option str) (text : option text_arg) :
  result (print_banner tm (load_banner contents) show_for color color_bg text)
    <> Raised MaxEmptySequence
  /\ (0 <= cols tm ->
      print_banner tm (load_banner []) None None None None
      = ([Clear; Print (mul (cols tm) [space])], Returned tt)).
Proof.
  split.
  - assert (Hne : load_banner contents <> []).
    { unfold load_banner, split.
      destruct (split_pieces_cons newline [] (read_text contents)) as (f & o & ->).
      discriminate. }
    unfold result.
    destruct (Z.le_gt_cases (width_of (load_banner contents)) (cols tm)) as [Hfit|Hwide].
    + rewrite print_banner_fits by assumption. cbn [snd]. intros H.
      apply below_banner_raises in H as [H|[H|[H|[H|H]]]]; discriminate.
    + rewrite print_banner_wide by assumption. discriminate.
  - intros Hc. change (load_banner []) with [@nil ascii].
    rewrite print_banner_fits;
      [|discriminate | change (width_of [[]]) with (Z.max 0 0); lia].
    rewrite below_banner_cases. cbn [text_truthy fst snd map app].
    rewrite fill_bottom_unset, hold_unset by reflexivity. cbn [fst snd app].
    unfold colored, padded. cbn [is_set orb]. cbv iota.
    change (len (@nil ascii)) with 0. rewrite !mul_space_eq. cbn [app].
    pose proof (left_padding_bounds (width_of [[]]) (cols tm)) as H.
    change (width_of [[]]) with 0 in *. specialize (H ltac:(lia)).
    set (l := left_padding 0 (cols tm)) in *.
    assert (E : (Z.to_nat l + Z.to_nat (cols tm - l - 0) = Z.to_nat (cols tm))%nat) by lia.
    rewrite <- repeat_app, E. reflexivity.
Qed.

Lemma print_banner_loaded_witness :
  print_banner (terminal 5 4) (load_banner []) None None None None
  = ([Clear; Print (lit "    ")], Returned tt).
Proof.
  apply (proj2 (print_banner_loaded (terminal 5 4) [] None None None None)).
  vm_compute. discriminate.
Defined.


Section RenderOutcome.

Lemma hold_result (accepts : Z -> bool) (show_for : option Z) :
  snd (hold accepts show_for) = Returned tt
  <-> (forall d, show_for = Some d ->
         d = 0 \/ (0 < d <= sleep_max /\ accepts d = true)).
Proof.
  destruct show_for as [d|]; [|split; [intros _ d; discriminate | reflexivity]].
  destruct (Z.eq_dec d 0) as [->|Hd0];
    [split; [intros _ d [= <-]; now left | reflexivity]|].
  destruct (Z.lt_ge_cases d (- sleep_max)) as [Hlo|Hlo];
    [rewrite hold_overflow by lia; split;
       [discriminate | intros H; destruct (H d eq_refl) as [?|[? _]]; unfold sleep_max in *; lia]|].
  destruct (Z.lt_ge_cases sleep_max d) as [Hhi|Hhi];
    [rewrite hold_overflow by lia; split;
       [discriminate | intros H; destruct (H d eq_refl) as [?|[? _]]; lia]|].
  destruct (Z.lt_ge_cases d 0) as [Hneg|Hpos].
  - rewrite hold_negative by lia. split; [discriminate|].
    intros H. destruct (H d eq_refl) as [?|[? _]]; lia.
  - destruct (accepts d) eqn:Ha.
    + rewrite hold_positive by (lia || exact Ha).
      split; [intros _ d' [= <-]; right; split; [lia | exact Ha] | reflexivity].
    + rewrite hold_refused by (lia || exact Ha). split; [discriminate|].
      intros H. destruct (H d eq_refl) as [?|[_ ?]]; [lia | congruence].
Qed.

Lemma wrap_lines_returns_width (width : Z) (text text_array result : list str) :
  text <> [] -> wrap_lines width text text_array = Returned result -> 0 < width.
Proof.
  intros Hne H. destruct (Z.le_gt_cases width 0) as [Hw|Hw]; [|lia].
  rewrite wrap_lines_invalid_width in H by assumption. discriminate.
Qed.

(** The hold only adds to a render that has succeeded. *)
Lemma print_banner_hold (tm : Terminal) (b : list str) (show_for : option Z)
    (color color_bg : option str) (text : option text_arg) :
  print_banner tm b show_for color color_bg text =
    match snd (print_banner tm b None color color_bg text) with
    | Returned _ =>
        (fst (print_banner tm b None color color_bg text) ++ fst (hold (sleeps tm) show_for),
         snd (hold (sleeps tm) show_for))
    | _ => print_banner tm b None color color_bg text
    end.
Proof.
  destruct b as [|line0 b0] eqn:Hb; [reflexivity|]. rewrite <- Hb.
  assert (Hne : b <> []) by (subst b; discriminate). clear Hb line0 b0.
  destruct (Z.le_gt_cases (width_of b) (cols tm)) as [Hfit|Hwide];
    [|now rewrite !print_banner_wide by assumption].
  rewrite !print_banner_fits by assumption. rewrite !below_banner_cases.
  rewrite (hold_unset (sleeps tm) None) by reflexivity. cbn [fst snd].
  destruct (text_truthy text).
  - destruct (wrap_lines _ _ _) as [ta|e|]; cbn [fst snd]; try reflexivity.
    destruct (_ >? _); cbn [fst snd]; [reflexivity|].
    rewrite !app_nil_r. cbn [app]. now rewrite <- !app_assoc.
  - rewrite !app_nil_r. cbn [app]. now rewrite <- !app_assoc.
Qed.

End RenderOutcome.

(** When the render returns. *)
Lemma print_banner_returns_cases (tm : Terminal) (b : list str)
    (show_for : option Z) (color color_bg : option str) (text : option text_arg) :
  result (print_banner tm b show_for color color_bg text) = Returned tt
  <->
  (b <> [] /\ width_of b <= cols tm
   /\ (text_truthy text = true ->
       2 * 10 < cols tm
       /\ exists text_array,
            wrap_lines (cols tm - 2 * margin_len) (text_lines text) [] = Returned text_array
            /\ len b + len text_array <= rows tm)
   /\ (forall d, show_for = Some d ->
         d = 0 \/ (0 < d <= sleep_max /\ sleeps tm d = true))).
Proof.
  unfold result. split.
  - intros Hres.
    assert (Hne : b <> [])
      by (intros ->; rewrite print_banner_nil in Hres; discriminate).
    destruct (Z.le_gt_cases (width_of b) (cols tm)) as [Hfit|Hwide];
      [|rewrite print_banner_wide in Hres by assumption; discriminate].
    rewrite print_banner_fits in Hres by assumption. cbn [snd] in Hres.
    rewrite below_banner_cases in Hres.
    split; [exact Hne|]. split; [exact Hfit|].
    destruct (text_truthy text) eqn:Htext.
    + destruct (wrap_lines _ _ _) as [ta|e|] eqn:Hwrap; try discriminate.
      destruct (Z.gtb_spec (len b + len ta) (rows tm)); [discriminate|].
      cbn [snd] in Hres. split; [|now apply (hold_result (sleeps tm))].
      intros _. split.
      * apply wrap_lines_returns_width in Hwrap; [|now apply text_lines_nonempty].
        unfold margin_len in Hwrap. lia.
      * exists ta. split; [reflexivity | lia].
    + cbn [snd] in Hres. split; [discriminate | now apply (hold_result (sleeps tm))].
  - intros (Hne & Hfit & Htext & Hhold).
    rewrite print_banner_fits by assumption. cbn [snd]. rewrite below_banner_cases.
    apply (hold_result (sleeps tm)) in Hhold.
    destruct (text_truthy text).
    + destruct (Htext eq_refl) as (_ & ta & -> & Hrows).
      destruct (Z.gtb_spec (len b + len ta) (rows tm)); [lia | exact Hhold].
    + exact Hhold.
Qed.

(** X4. [print_banner] returns exactly when: the banner is not empty and not
    wider than the terminal; a caption, if one is supplied, finds more than 20
    columns and, once wrapped, fits with the banner in the terminal rows; and
    the hold duration, if given, is zero, or is positive, at most the
    9223372036 seconds that [time.sleep] can convert, and accepted by the
    operating system. *)
Theorem print_banner_returns_iff (tm : Terminal) (b : list str)
    (show_for : option Z) (color color_bg : option str) (text : option text_arg) :
  result (print_banner tm b show_for color color_bg text) = Returned tt
  <->
  (b <> [] /\ width_of b <= cols tm
   /\ (text_truthy text = true ->
       2 * 10 < cols tm
       /\ exists text_array,
            wrap_lines (cols tm - 2 * margin_len) (text_lines text) [] = Returned text_array
            /\ len b + len text_array <= rows tm)
   /\ (forall d, show_for = Some d ->
         d = 0 \/ (0 < d <= 9223372036 /\ sleeps tm d = true))).
Proof. apply print_banner_returns_cases. Qed.

Lemma print_banner_returns_iff_witness :
  result (print_banner (terminal 6 30) [lit "##"] (Some 3)
            (Some RED) (Some BLACK_BG) (Some (TextStr (lit "Hello"))))
  = Returned tt.
Proof.
  apply print_banner_returns_iff. split; [discriminate|].
  split; [vm_compute; discriminate|]. split.
  - intros _. split; [reflexivity|]. exists [lit "Hello"].
    split; vm_compute; [reflexivity | discriminate].
  - intros d [= <-]. right. split; [lia | reflexivity].
Defined.

(** X5. Nothing is drawn before the screen is cleared: every trace of
    [print_banner] is empty or starts with the clearing, and it is empty
    exactly when the banner is empty or wider than the terminal. *)
Theorem print_banner_clears_first (tm : Terminal) (b : list str)
    (show_for : option Z) (color color_bg : option str) (text : option text_arg) :
  (trace (print_banner tm b show_for color color_bg text) = []
   <-> (b = [] \/ cols tm < width_of b))
  /\ (trace (print_banner tm b show_for color color_bg text) = []
      \/ exists rest,
           trace (print_banner tm b show_for color color_bg text) = Clear :: rest).
Proof.
  unfold trace.
  destruct b as [|line0 b0] eqn:Hb.
  - split; [split; [now left | reflexivity] | now left].
  - rewrite <- Hb. assert (Hne : b <> []) by (subst b; discriminate).
    destruct (Z.le_gt_cases (width_of b) (cols tm)) as [Hfit|Hwide].
    + rewrite print_banner_fits by assumption. cbn [fst]. split.
      * split; [discriminate | intros [H|H]; [contradiction | lia]].
      * right. eauto.
    + rewrite print_banner_wide by assumption. cbn [fst].
      split; [split; [now right | reflexivity] | now left].
Qed.

(* ====================================================================== *)
(** ** The printed rows *)
(* ====================================================================== *)

Section PrintedFacts.

Lemma printed_app (t u : list event) : printed (t ++ u) = printed t ++ printed u.
Proof.
  induction t as [|e t IH]; [reflexivity|]. destruct e; simpl; now rewrite IH.
Qed.

Lemma printed_map_print {A} (f : A -> str) (l : list A) :
  printed (map (fun x => Print (f x)) l) = map f l.
Proof. induction l as [|x l IH]; simpl; [reflexivity | now rewrite IH]. Qed.

Lemma printed_repeat_print (line : str) (n : nat) :
  printed (repeat (Print line) n) = repeat line n.
Proof. induction n as [|n IH]; simpl; [reflexivity | now rewrite IH]. Qed.

Lemma printed_hold (accepts : Z -> bool) (show_for : option Z) :
  printed (fst (hold accepts show_for)) = [].
Proof.
  unfold hold. destruct (show_for_truthy show_for); [|reflexivity].
  unfold sleep. destruct (_ || _)%bool; [reflexivity|].
  destruct (_ <? 0); [reflexivity|]. destruct (accepts _); reflexivity.
Qed.

Lemma printed_fill_bottom (rows cols : Z) (b ta : list str) (color_bg : option str) :
  printed (fst (fill_bottom rows cols b ta color_bg)) =
    if is_set color_bg
    then repeat (fill_row cols color_bg) (Z.to_nat (rows - (len b + len ta) - 1))
    else [].
Proof.
  destruct (is_set color_bg) eqn:E.
  - rewrite fill_bottom_set by exact E. apply printed_repeat_print.
  - now rewrite fill_bottom_unset.
Qed.

Lemma len_padded (W C : Z) (line : str) :
  len line <= W -> W <= C -> len (padded C (left_padding W C) line) = C.
Proof.
  intros Hl HW. pose proof (len_nonneg line).
  pose proof (left_padding_bounds W C ltac:(lia)).
  unfold padded. rewrite !len_app, !len_mul_space. lia.
Qed.

(** The centred field: the text between two runs of spaces that differ by
    at most one, the longer one on the right. *)
Lemma center_format_layout (w : Z) (s : str) :
  len s <= w ->
  let l := (w - len s) / 2 in
  let r := w - len s - l in
  center_format w s = mul l [space] ++ s ++ mul r [space]
  /\ 0 <= l /\ l <= r <= l + 1.
Proof.
  intros Hs l r. unfold center_format.
  assert (Hl : 0 <= l /\ l <= r <= l + 1).
  { subst l r. pose proof (Z.div_mod (w - len s) 2 ltac:(lia)).
    pose proof (Z.mod_pos_bound (w - len s) 2 ltac:(lia)). lia. }
  split; [|exact Hl].
  destruct (Z.leb_spec (w - len s) 0) as [H0|Hpos]; [|reflexivity].
  assert (E : w - len s = 0) by lia.
  subst l r. rewrite E. change (0 / 2) with 0. cbn. now rewrite app_nil_r.
Qed.

Lemma len_center_format (w : Z) (s : str) :
  len s <= w -> len (center_format w s) = w.
Proof.
  intros Hs. destruct (center_format_layout w s Hs) as (-> & Hl & Hr).
  rewrite !len_app, !len_mul_space. lia.
Qed.

Lemma len_caption_line (cols : Z) (color_bg : option str) (output : str) :
  is_set color_bg = false -> len output <= cols - 2 * margin_len ->
  len (caption_line cols color_bg output) = cols.
Proof.
  intros Hbg Hfit. unfold caption_line. rewrite Hbg.
  rewrite !len_app, len_center_format, len_mul_space by exact Hfit.
  unfold margin_len. lia.
Qed.

End PrintedFacts.

(** X6. With neither colour set, every row that [print_banner] prints, a
    banner line or a caption line, is exactly as long as the terminal is wide,
    whether the call then returns or raises. *)
Theorem plain_rows_span_terminal (tm : Terminal) (b : list str)
    (show_for : option Z) (color color_bg : option str) (text : option text_arg) :
  is_set color = false -> is_set color_bg = false ->
  Forall (fun line => len line = cols tm)
    (printed (trace (print_banner tm b show_for color color_bg text))).
Proof.
  intros Hc Hbg. unfold trace.
  destruct b as [|line0 b0] eqn:Hb; [constructor|]. rewrite <- Hb.
  assert (Hne : b <> []) by (subst b; discriminate). clear Hb line0 b0.
  destruct (Z.le_gt_cases (width_of b) (cols tm)) as [Hfit|Hwide];
    [|rewrite print_banner_wide by assumption; constructor].
  rewrite print_banner_fits by assumption. cbn [fst printed].
  rewrite printed_app, printed_map_print. apply Forall_app. split.
  - apply Forall_map. eapply Forall_impl; [|apply width_of_bound].
    cbv beta. intros line Hline. unfold colored. rewrite Hc, Hbg. cbn [orb].
    now apply len_padded.
  - rewrite below_banner_cases. destruct (text_truthy text) eqn:Htext.
    + destruct (wrap_lines _ _ _) as [ta|e|] eqn:Hwrap; try constructor.
      destruct (_ >? _); [constructor|]. cbn [fst].
      rewrite !printed_app, printed_map_print, printed_fill_bottom, Hbg, printed_hold.
      rewrite !app_nil_r. apply Forall_map.
      eapply Forall_impl; [|eapply wrap_lines_fits; [|exact Hwrap]; constructor].
      cbv beta. intros line Hline. now apply len_caption_line.
    + cbn [fst]. rewrite printed_app, printed_fill_bottom, Hbg, printed_hold. constructor.
Qed.

Lemma plain_rows_span_terminal_witness :
  Forall (fun line => len line = 30)
    (printed (trace (print_banner (terminal 6 30) [lit "##"; lit "####"]
                       None None None (Some (TextStr (lit "Hello world")))))).
Proof.
  apply (plain_rows_span_terminal (terminal 6 30)); reflexivity.
Defined.

(** X7. How many rows a render that returns has printed.  Without a
    background colour: the banner lines and the wrapped caption lines.  With
    one: the screen is filled down to its last row but one, [R - 1] rows in
    all, unless banner and caption alone are already more. *)
Theorem printed_row_count (tm : Terminal) (b : list str)
    (show_for : option Z) (color color_bg : option str) (text : option text_arg) :
  result (print_banner tm b show_for color color_bg text) = Returned tt ->
  exists text_array,
    (if text_truthy text
     then wrap_lines (cols tm - 2 * margin_len) (text_lines text) [] = Returned text_array
     else text_array = [])
    /\ len (printed (trace (print_banner tm b show_for color color_bg text))) =
         if is_set color_bg
         then Z.max (len b + len text_array) (rows tm - 1)
         else len b + len text_array.
Proof.
  intros Hres. pose proof Hres as Hiff.
  apply print_banner_returns_cases in Hiff as (Hne & Hfit & Htext & _).
  unfold result, trace in *.
  rewrite print_banner_fits in * by assumption. cbn [fst snd printed] in *.
  rewrite below_banner_cases in *.
  assert (Hcount : forall ta,
    len (map (fun line => colored color color_bg
               (padded (cols tm) (left_padding (width_of b) (cols tm)) line)) b
         ++ map (caption_line (cols tm) color_bg) ta
         ++ (if is_set color_bg
             then repeat (fill_row (cols tm) color_bg)
                    (Z.to_nat (rows tm - (len b + len ta) - 1))
             else []))
    = if is_set color_bg then Z.max (len b + len ta) (rows tm - 1)
      else len b + len ta).
  { intros ta. unfold len. destruct (is_set color_bg).
    - rewrite !length_app, !length_map, repeat_length. lia.
    - rewrite !length_app, !length_map. simpl. lia. }
  destruct (text_truthy text).
  - destruct (Htext eq_refl) as (_ & ta & Hwrap & Hrows). rewrite Hwrap in *.
    destruct (Z.gtb_spec (len b + len ta) (rows tm)); [lia|]. cbn [fst].
    exists ta. split; [reflexivity|].
    rewrite !printed_app, !printed_map_print, printed_fill_bottom, printed_hold.
    rewrite app_nil_r. apply Hcount.
  - cbn [fst]. exists []. split; [reflexivity|].
    rewrite !printed_app, !printed_map_print, printed_fill_bottom, printed_hold.
    rewrite app_nil_r. apply (Hcount []).
Qed.

Lemma printed_row_count_witness :
  exists text_array,
    wrap_lines (30 - 2 * margin_len) [lit "Hello"] [] = Returned text_array
    /\ len (printed (trace (print_banner (terminal 6 30) [lit "##"] None
                              None (Some BLUE_BG) (Some (TextStr (lit "Hello"))))))
       = Z.max (len [lit "##"] + len text_array) (6 - 1).
Proof.
  apply (printed_row_count (terminal 6 30) [lit "##"] None None
           (Some BLUE_BG) (Some (TextStr (lit "Hello")))).
  vm_compute. reflexivity.
Defined.

(** X8. The caption rows.  When the banner fits and the wrapped caption
    fits in the rows, each caption line is printed, after the banner lines, as
    margin, text centred in [C - 20] columns, margin: the two runs of spaces
    around the text differ by at most one, the longer on the right; the margin
    is 10 spaces, wrapped in the background code and the reset code when a
    background is set; the foreground colour is not applied. *)
Theorem caption_rows_layout (tm : Terminal) (b : list str)
    (show_for : option Z) (color color_bg : option str) (text : option text_arg)
    (text_array : list str) :
  b <> [] -> width_of b <= cols tm ->
  text_truthy text = true ->
  wrap_lines (cols tm - 2 * margin_len) (text_lines text) [] = Returned text_array ->
  len b + len text_array <= rows tm ->
  let w := cols tm - 2 * 10 in
  let l := fun output : str => (w - len output) / 2 in
  let r := fun output : str => w - len output - l output in
  let margin := if is_set color_bg
                then value color_bg ++ mul 10 [space] ++ RESET_COLOR
                else mul 10 [space] in
  (exists rest,
     trace (print_banner tm b show_for color color_bg text) =
       Clear ::
       map (fun line => Print (colored color color_bg
              (padded (cols tm) (left_padding (width_of b) (cols tm)) line))) b
       ++ map (fun output =>
                 Print (margin ++ mul (l output) [space] ++ output
                        ++ mul (r output) [space] ++ margin)) text_array
       ++ rest)
  /\ Forall (fun output =>
               0 <= l output /\ l output <= r output <= l output + 1
               /\ l output + len output + r output = w) text_array.
Proof.
  intros Hne Hfit Htext Hwrap Hrows w l r margin.
  assert (Hlines : Forall (fun line => len line <= w) text_array)
    by (eapply wrap_lines_fits; [|exact Hwrap]; constructor).
  split.
  - eexists. unfold trace. rewrite print_banner_fits by assumption. cbn [fst].
    rewrite below_banner_cases, Htext, Hwrap.
    destruct (Z.gtb_spec (len b + len text_array) (rows tm)); [lia|]. cbn [fst].
    do 2 f_equal. f_equal.
    apply map_ext_in. intros output Hin. f_equal.
    rewrite Forall_forall in Hlines. specialize (Hlines output Hin).
    unfold caption_line. fold margin.
    destruct (center_format_layout w output Hlines) as (E & _).
    change (cols tm - 2 * margin_len) with w. rewrite E.
    subst l r. cbv beta. now rewrite <- !app_assoc.
  - eapply Forall_impl; [|exact Hlines]. cbv beta. intros output Hout.
    destruct (center_format_layout w output Hout) as (_ & Hl & Hr).
    subst l r. cbv beta. lia.
Qed.

Lemma caption_rows_layout_witness :
  exists rest,
    trace (print_banner (terminal 6 30) [lit "##"] None (Some RED)
             (Some BLUE_BG) (Some (TextStr (lit "Hello")))) =
      Clear ::
      map (fun line => Print (colored (Some RED) (Some BLUE_BG) (padded 30 14 line)))
        [lit "##"]
      ++ [Print ((BLUE_BG ++ mul 10 [space] ++ RESET_COLOR)
                 ++ mul 2 [space] ++ lit "Hello" ++ mul 3 [space]
                 ++ (BLUE_BG ++ mul 10 [space] ++ RESET_COLOR))]
      ++ rest.
Proof.
  apply (caption_rows_layout (terminal 6 30) [lit "##"] None (Some RED)
           (Some BLUE_BG) (Some (TextStr (lit "Hello"))) [lit "Hello"]).
  - discriminate.
  - vm_compute. discriminate.
  - reflexivity.
  - vm_compute. reflexivity.
  - vm_compute. discriminate.
Defined.

Lemma skipn_app_exact {A} (l r : list A) : skipn (length l) (l ++ r) = r.
Proof. induction l as [|x l IH]; [reflexivity | exact IH]. Qed.

(** X9. The foreground colour reaches the banner lines only: two calls that
    differ in nothing but the foreground colour end the same way, and their
    traces agree after the clearing and the banner lines. *)
Theorem foreground_only_in_banner (tm : Terminal) (b : list str)
    (show_for : option Z) (color1 color2 color_bg : option str)
    (text : option text_arg) :
  result (print_banner tm b show_for color1 color_bg text)
  = result (print_banner tm b show_for color2 color_bg text)
  /\ skipn (S (length b)) (trace (print_banner tm b show_for color1 color_bg text))
     = skipn (S (length b)) (trace (print_banner tm b show_for color2 color_bg text)).
Proof.
  unfold result, trace.
  destruct b as [|line0 b0] eqn:Hb; [split; reflexivity|]. rewrite <- Hb.
  assert (Hne : b <> []) by (subst b; discriminate). clear Hb line0 b0.
  destruct (Z.le_gt_cases (width_of b) (cols tm)) as [Hfit|Hwide].
  - rewrite !print_banner_fits by assumption. cbn [fst snd skipn].
    split; [reflexivity|].
    rewrite <- (length_map (fun line => Print (colored color1 color_bg
              (padded (cols tm) (left_padding (width_of b) (cols tm)) line))) b) at 1.
    rewrite skipn_app_exact.
    rewrite <- (length_map (fun line => Print (colored color2 color_bg
              (padded (cols tm) (left_padding (width_of b) (cols tm)) line))) b) at 1.
    now rewrite skipn_app_exact.
  - rewrite !print_banner_wide by assumption. split; reflexivity.
Qed.

(** X10. A positive hold comes last.  For a duration of at most
    9223372036 seconds that the operating system accepts: after a render that
    would return without it, the call sleeps for that time and clears the
    screen once more, and nothing else changes; a render that fails is not
    held. *)
Theorem hold_after_render (tm : Terminal) (b : list str) (d : Z)
    (color color_bg : option str) (text : option text_arg) :
  0 < d <= 9223372036 -> sleeps tm d = true ->
  (result (print_banner tm b None color color_bg text) = Returned tt ->
   print_banner tm b (Some d) color color_bg text =
     (trace (print_banner tm b None color color_bg text) ++ [Sleep d; Clear],
      Returned tt))
  /\ (result (print_banner tm b None color color_bg text) <> Returned tt ->
      print_banner tm b (Some d) color color_bg text =
        print_banner tm b None color color_bg text).
Proof.
  intros Hd Ha. unfold result, trace. rewrite (print_banner_hold tm b (Some d)).
  rewrite hold_positive by assumption. cbn [fst snd]. split.
  - intros ->. reflexivity.
  - intros H. destruct (snd (print_banner tm b None color color_bg text)) as [[]| |];
      [contradiction | reflexivity | reflexivity].
Qed.

Lemma hold_after_render_witness :
  print_banner (terminal 4 6) [lit "##"] (Some 3) None None None
  = (trace (print_banner (terminal 4 6) [lit "##"] None None None None)
     ++ [Sleep 3; Clear], Returned tt).
Proof.
  apply (proj1 (hold_after_render (terminal 4 6) [lit "##"] 3
                  None None None ltac:(lia) eq_refl)).
  vm_compute. reflexivity.
Defined.

(** X11. A hold that cannot be slept fails late.  When the render without
    a hold returns and the duration is negative, or beyond 9223372036 seconds
    either way, or refused by the operating system, the call draws the same
    screen in full and then raises: OverflowError beyond 9223372036 seconds
    either way, else ValueError for a negative duration, else OSError.  It has
    not slept and has not cleared the screen a second time. *)
Theorem hold_failure_is_late (tm : Terminal) (b : list str) (d : Z)
    (color color_bg : option str) (text : option text_arg) :
  result (print_banner tm b None color color_bg text) = Returned tt ->
  d < 0 \/ 9223372036 < d \/ (0 < d /\ sleeps tm d = false) ->
  print_banner tm b (Some d) color color_bg text =
    (trace (print_banner tm b None color color_bg text),
     Raised (if ((d <? - 9223372036) || (9223372036 <? d))%bool then SleepOverflow
             else if d <? 0 then SleepNegative
             else SleepOSError)).
Proof.
  intros Hres Hd. unfold result, trace in *.
  rewrite (print_banner_hold tm b (Some d)), Hres.
  pose proof (eq_refl : sleep_max = 9223372036) as Hm.
  destruct (Z.ltb_spec d (- 9223372036)) as [Hlo|Hlo];
    [rewrite hold_overflow by lia; cbn [fst snd orb]; now rewrite app_nil_r|].
  destruct (Z.ltb_spec 9223372036 d) as [Hhi|Hhi];
    [rewrite hold_overflow by lia; cbn [fst snd orb]; now rewrite app_nil_r|].
  cbn [orb]. destruct (Z.ltb_spec d 0) as [Hneg|Hpos].
  - rewrite hold_negative by lia. cbn [fst snd]. now rewrite app_nil_r.
  - destruct Hd as [Hd|[Hd|[Hd Ha]]]; [lia | lia |].
    rewrite hold_refused by (lia || exact Ha). cbn [fst snd]. now rewrite app_nil_r.
Qed.

Lemma hold_failure_is_late_witness :
  print_banner (terminal 4 6) [lit "##"] (Some (-1)) None None None
  = (trace (print_banner (terminal 4 6) [lit "##"] None None None None),
     Raised SleepNegative).
Proof.
  apply (hold_failure_is_late (terminal 4 6) [lit "##"] (-1) None None None).
  - vm_compute. reflexivity.
  - left. lia.
Defined.

(* ====================================================================== *)
(** ** The search path *)
(* ====================================================================== *)

Section PathFacts.

Import Sounds.

Variable env : Env.

Lemma search_found (cmd : str) (paths : list str) :
  (exists dir,
     In dir paths /\ isfile env (cmd_path dir cmd) = true
     /\ access_X_OK env (cmd_path dir cmd) = true) ->
  search env cmd paths = true.
Proof.
  intros (dir & Hin & Hf & Hx).
  induction paths as [|path r IH]; [destruct Hin|]. simpl.
  destruct Hin as [->|Hin]; [now rewrite Hf, Hx|].
  destruct (_ && _)%bool; [reflexivity | now apply IH].
Qed.

Lemma search_none (cmd : str) (paths : list str) :
  search env cmd paths = false ->
  forall dir, In dir paths ->
    isfile env (cmd_path dir cmd) = false \/ access_X_OK env (cmd_path dir cmd) = false.
Proof.
  intros H dir Hin.
  destruct (isfile env (cmd_path dir cmd)) eqn:Hf; [|now left].
  destruct (access_X_OK env (cmd_path dir cmd)) eqn:Hx; [|now right].
  rewrite search_found in H by eauto. discriminate.
Qed.

Lemma cmd_path_empty (cmd : str) : cmd_path [] cmd = cmd.
Proof.
  unfold cmd_path. change (strip dquote []) with (@nil ascii).
  unfold path_join. destruct cmd as [|c cmd]; [reflexivity|].
  now destruct (Ascii.eqb c sep).
Qed.

Lemma lstrip_app_one (c : ascii) (s : str) :
  lstrip c (s ++ [c]) = match lstrip c s with [] => [] | _ :: _ => lstrip c s ++ [c] end.
Proof.
  induction s as [|x s IH]; simpl; [now rewrite Ascii.eqb_refl|].
  destruct (Ascii.eqb x c); [exact IH | reflexivity].
Qed.

Lemma strip_quoted (c : ascii) (s : str) : strip c (c :: s ++ [c]) = strip c s.
Proof.
  unfold strip. cbn [lstrip]. rewrite Ascii.eqb_refl, lstrip_app_one.
  destruct (lstrip c s) as [|x t] eqn:E; [reflexivity|].
  rewrite rev_app_distr. cbn [rev app lstrip]. now rewrite Ascii.eqb_refl.
Qed.

End PathFacts.

(** X12. [_on_path] raises KeyError when PATH is not set; otherwise it
    returns, and it returns True exactly when some entry of PATH, split at the
    colons, holds an executable file of that name. *)
Theorem on_path_spec (env : Sounds.Env) (cmd : str) :
  match Sounds.PATH env with
  | None => Sounds._on_path env cmd = Raised KeyErrorPATH
  | Some search_path =>
      exists found,
        Sounds._on_path env cmd = Returned found
        /\ (found = true <->
            exists dir,
              In dir (split Sounds.pathsep search_path)
              /\ Sounds.isfile env (Sounds.cmd_path dir cmd) = true
              /\ Sounds.access_X_OK env (Sounds.cmd_path dir cmd) = true)
  end.
Proof.
  unfold Sounds._on_path. destruct (Sounds.PATH env) as [p|]; [|reflexivity].
  eexists. split; [reflexivity|]. split; [apply search_true | apply search_found].
Qed.

(** X13. omxplayer comes first: when the sound file exists and some entry
    of PATH holds an executable omxplayer, [play] asks for omxplayer on the
    sound path, whether afplay is there or not.  If the operating system
    starts it, [play] waits for it exactly when [blocking] is set, prints
    nothing and returns; if [Popen] cannot start it, [play] raises the error
    of [Popen], having printed nothing, and does not try afplay. *)
Theorem play_prefers_omxplayer (env : Sounds.Env) (sound_path search_path : str)
    (blocking : bool) :
  Sounds.isfile env sound_path = true ->
  Sounds.PATH env = Some search_path ->
  (exists dir,
     In dir (split Sounds.pathsep search_path)
     /\ Sounds.isfile env (Sounds.cmd_path dir Sounds.omxplayer) = true
     /\ Sounds.access_X_OK env (Sounds.cmd_path dir Sounds.omxplayer) = true) ->
  Sounds.play env sound_path blocking =
    if Sounds.can_start env [Sounds.omxplayer; sound_path]
    then (Popen [Sounds.omxplayer; sound_path] :: (if blocking then [Wait] else []),
          Returned tt)
    else ([], Raised PopenOSError).
Proof.
  intros Hfile Hpath Homx. unfold Sounds.play, Sounds._on_path.
  rewrite Hfile, Hpath. cbn [negb]. rewrite search_found by exact Homx.
  rewrite bind_lift_returned. apply launch_trace.
Qed.

Lemma play_prefers_omxplayer_witness :
  let pi := {| Sounds.PATH := Some (lit "/usr/local/bin:/usr/bin");
               Sounds.isfile := fun p => (Str.eqb p (lit "/usr/bin/omxplayer")
                                          || Str.eqb p (lit "/usr/local/bin/afplay")
                                          || Str.eqb p (lit "sounds/won.wav"))%bool;
               Sounds.access_X_OK := fun _ => true;
               Sounds.can_start := fun _ => true |} in
  Sounds.play pi (lit "sounds/won.wav") false =
    ([Popen [Sounds.omxplayer; lit "sounds/won.wav"]], Returned tt).
Proof.
  intros pi.
  apply (play_prefers_omxplayer pi (lit "sounds/won.wav") (lit "/usr/local/bin:/usr/bin") false).
  - reflexivity.
  - reflexivity.
  - exists (lit "/usr/bin"). split; [right; left; reflexivity | split; reflexivity].
Defined.

(** X14. afplay is the fallback: when the sound file exists, no entry of
    PATH holds an executable omxplayer and some entry holds an executable
    afplay, [play] asks for afplay on the sound path.  If the operating system
    starts it, [play] waits for it exactly when [blocking] is set and returns;
    if [Popen] cannot start it, [play] raises the error of [Popen], having
    printed nothing. *)
Theorem play_falls_back_to_afplay (env : Sounds.Env) (sound_path search_path : str)
    (blocking : bool) :
  Sounds.isfile env sound_path = true ->
  Sounds.PATH env = Some search_path ->
  (forall dir,
     In dir (split Sounds.pathsep search_path) ->
     Sounds.isfile env (Sounds.cmd_path dir Sounds.omxplayer) = false
     \/ Sounds.access_X_OK env (Sounds.cmd_path dir Sounds.omxplayer) = false) ->
  (exists dir,
     In dir (split Sounds.pathsep search_path)
     /\ Sounds.isfile env (Sounds.cmd_path dir Sounds.afplay) = true
     /\ Sounds.access_X_OK env (Sounds.cmd_path dir Sounds.afplay) = true) ->
  Sounds.play env sound_path blocking =
    if Sounds.can_start env [Sounds.afplay; sound_path]
    then (Popen [Sounds.afplay; sound_path] :: (if blocking then [Wait] else []),
          Returned tt)
    else ([], Raised PopenOSError).
Proof.
  intros Hfile Hpath Hnone Hafp. unfold Sounds.play, Sounds._on_path.
  rewrite Hfile, Hpath. cbn [negb].
  rewrite search_false by exact Hnone. rewrite bind_lift_returned.
  rewrite search_found by exact Hafp. rewrite bind_lift_returned.
  apply launch_trace.
Qed.

Lemma play_falls_back_to_afplay_witness :
  let mac := {| Sounds.PATH := Some (lit "/usr/bin:/opt/bin");
                Sounds.isfile := fun p => (Str.eqb p (lit "/opt/bin/afplay")
                                           || Str.eqb p (lit "/usr/bin/omxplayer")
                                           || Str.eqb p (lit "sounds/tada.wav"))%bool;
                Sounds.access_X_OK := fun p => Str.eqb p (lit "/opt/bin/afplay");
                Sounds.can_start := fun _ => true |} in
  Sounds.play mac (lit "sounds/tada.wav") true =
    ([Popen [Sounds.afplay; lit "sounds/tada.wav"]; Wait], Returned tt).
Proof.
  intros mac.
  apply (play_falls_back_to_afplay mac (lit "sounds/tada.wav") (lit "/usr/bin:/opt/bin") true).
  - reflexivity.
  - reflexivity.
  - intros dir Hin. right.
    destruct Hin as [<-|[<-|[]]]; reflexivity.
  - exists (lit "/opt/bin"). split; [right; left; reflexivity | split; reflexivity].
Defined.

(** X15. [play] can raise: when the sound file exists and PATH is not set,
    the lookup of PATH in the environment fails with KeyError before anything
    is printed or started. *)
Theorem play_without_search_path (env : Sounds.Env) (sound_path : str)
    (blocking : bool) :
  Sounds.isfile env sound_path = true ->
  Sounds.PATH env = None ->
  Sounds.play env sound_path blocking = ([], Raised KeyErrorPATH).
Proof.
  intros Hfile Hpath. unfold Sounds.play, Sounds._on_path.
  now rewrite Hfile, Hpath.
Qed.

Lemma play_without_search_path_witness :
  Sounds.play {| Sounds.PATH := None;
                 Sounds.isfile := fun _ => true;
                 Sounds.access_X_OK := fun _ => true;
                 Sounds.can_start := fun _ => true |} (lit "sounds/ice.wav") true
  = ([], Raised KeyErrorPATH).
Proof. apply play_without_search_path; reflexivity. Defined.

(** X16. Everything [play] can do.  It prints one message and returns; or
    it fails on the missing PATH having done nothing; or it asks for one
    player, omxplayer or afplay on the sound path, and either [Popen] fails,
    and [play] raises its error with no process started, or the process
    starts and [play] returns, with one wait right after the start exactly
    when [blocking] is set.  So it never starts two processes, never prints
    when it asks for one, and never waits without one. *)
Theorem play_outcomes (env : Sounds.Env) (sound_path : str) (blocking : bool) :
  (exists message, Sounds.play env sound_path blocking = ([Print message], Returned tt))
  \/ Sounds.play env sound_path blocking = ([], Raised KeyErrorPATH)
  \/ (exists player,
        (player = Sounds.omxplayer \/ player = Sounds.afplay)
        /\ Sounds.can_start env [player; sound_path] = false
        /\ Sounds.play env sound_path blocking = ([], Raised PopenOSError))
  \/ (exists player,
        (player = Sounds.omxplayer \/ player = Sounds.afplay)
        /\ Sounds.can_start env [player; sound_path] = true
        /\ Sounds.play env sound_path blocking =
             (Popen [player; sound_path] :: (if blocking then [Wait] else []),
              Returned tt)).
Proof.
  unfold Sounds.play, Sounds._on_path.
  destruct (Sounds.isfile env sound_path); cbn [negb];
    [|left; eexists; reflexivity].
  destruct (Sounds.PATH env) as [p|]; [|right; left; reflexivity].
  assert (Hlaunch : forall player,
    player = Sounds.omxplayer \/ player = Sounds.afplay ->
    (exists player0,
       (player0 = Sounds.omxplayer \/ player0 = Sounds.afplay)
       /\ Sounds.can_start env [player0; sound_path] = false
       /\ Sounds.launch env player sound_path blocking = ([], Raised PopenOSError))
    \/ (exists player0,
          (player0 = Sounds.omxplayer \/ player0 = Sounds.afplay)
          /\ Sounds.can_start env [player0; sound_path] = true
          /\ Sounds.launch env player sound_path blocking =
               (Popen [player0; sound_path] :: (if blocking then [Wait] else []),
                Returned tt))).
  { intros player Hp. rewrite launch_trace.
    destruct (Sounds.can_start env [player; sound_path]) eqn:E;
      [right | left]; exists player; auto. }
  destruct (Sounds.search env Sounds.omxplayer _).
  - right; right. rewrite bind_lift_returned. apply Hlaunch. now left.
  - rewrite bind_lift_returned. destruct (Sounds.search env Sounds.afplay _).
    + right; right. rewrite bind_lift_returned. apply Hlaunch. now right.
    + left. rewrite bind_lift_returned. eexists. reflexivity.
Qed.

(** X17. An empty entry of PATH stands for the current directory: the
    candidate tested for it is the bare command name, so a file of that name
    that is executable in the working directory makes [_on_path] return
    True. *)
Theorem on_path_empty_entry (env : Sounds.Env) (cmd search_path : str) :
  Sounds.PATH env = Some search_path ->
  In [] (split Sounds.pathsep search_path) ->
  Sounds.isfile env cmd = true ->
  Sounds.access_X_OK env cmd = true ->
  Sounds.cmd_path [] cmd = cmd /\ Sounds._on_path env cmd = Returned true.
Proof.
  intros Hpath Hin Hf Hx. split; [apply cmd_path_empty|].
  unfold Sounds._on_path. rewrite Hpath. f_equal.
  apply search_found. exists []. rewrite cmd_path_empty. auto.
Qed.

Lemma on_path_empty_entry_witness :
  let here := {| Sounds.PATH := Some (lit "/usr/bin:");
                 Sounds.isfile := fun p => Str.eqb p (lit "afplay");
                 Sounds.access_X_OK := fun p => Str.eqb p (lit "afplay");
                 Sounds.can_start := fun _ => true |} in
  Sounds.cmd_path [] (lit "afplay") = lit "afplay"
  /\ Sounds._on_path here (lit "afplay") = Returned true.
Proof.
  intros here. apply (on_path_empty_entry here (lit "afplay") (lit "/usr/bin:")).
  - reflexivity.
  - right; left; reflexivity.
  - reflexivity.
  - reflexivity.
Defined.

(** X18. Double quotes around an entry of PATH are ignored: the candidate
    tested for a quoted directory is the one tested for the directory
    itself. *)
Theorem cmd_path_quoted (dir cmd : str) :
  Sounds.cmd_path (Sounds.dquote :: dir ++ [Sounds.dquote]) cmd = Sounds.cmd_path dir cmd.
Proof. unfold Sounds.cmd_path. now rewrite strip_quoted. Qed.

(* ====================================================================== *)
(** ** textwrap: wrapping only touches whitespace *)
(* ====================================================================== *)

Section VisibleFacts.

Lemma visible_app (s t : str) : visible (s ++ t) = visible s ++ visible t.
Proof. apply filter_app. Qed.

Lemma visible_blank (s : str) : is_blank s = true -> visible s = [].
Proof.
  unfold is_blank, visible. induction s as [|c s IH]; simpl; [reflexivity|].
  intros H. apply andb_prop in H as [Hc Hs]. rewrite Hc. simpl. now apply IH.
Qed.

Lemma visible_spaces (n : Z) : visible (mul n [space]) = [].
Proof.
  rewrite mul_space_eq. induction (Z.to_nat n) as [|k IH]; [reflexivity | exact IH].
Qed.

Lemma is_ws_isspace (c : ascii) : is_ws c = true -> isspace c = true.
Proof.
  destruct c as [[] [] [] [] [] [] [] []]; vm_compute; intros H;
    first [reflexivity | discriminate H].
Qed.

Lemma visible_expandtabs_from (s : str) :
  forall line_pos, visible (expandtabs_from tabsize line_pos s) = visible s.
Proof.
  induction s as [|c s IH]; intros line_pos; simpl; [reflexivity|].
  destruct (Ascii.eqb_spec c tab) as [->|_].
  - rewrite visible_app, visible_spaces, IH. reflexivity.
  - simpl. now rewrite IH.
Qed.

Lemma visible_replace_whitespace (s : str) : visible (replace_whitespace s) = visible s.
Proof.
  unfold replace_whitespace. induction s as [|c s IH]; simpl; [reflexivity|].
  rewrite IH. destruct (is_ws c) eqn:E; [|reflexivity].
  apply is_ws_isspace in E. now rewrite E.
Qed.

Lemma visible__munge_whitespace (s : str) : visible (_munge_whitespace s) = visible s.
Proof.
  unfold _munge_whitespace, expandtabs.
  now rewrite visible_replace_whitespace, visible_expandtabs_from.
Qed.

Lemma visible_join_newline (pieces : list str) :
  visible (join [newline] pieces) = visible (concat pieces).
Proof.
  induction pieces as [|x r IH]; [reflexivity|]. destruct r as [|y r].
  - simpl. now rewrite app_nil_r.
  - change (join [newline] (x :: y :: r)) with (x ++ [newline] ++ join [newline] (y :: r)).
    rewrite !visible_app, IH. simpl concat. now rewrite !visible_app.
Qed.

Lemma _handle_long_word_slices (chunk : str) (below cur_line : list str)
    (cur_len width : Z) :
  exists e,
    _handle_long_word (chunk :: below) cur_line cur_len width =
      (slice_from e chunk :: below, cur_line ++ [slice_to e chunk]).
Proof. unfold _handle_long_word. eexists. reflexivity. Qed.

Lemma visible_drop_trailing_blank (l : list str) :
  visible (concat (drop_trailing_blank l)) = visible (concat l).
Proof.
  unfold drop_trailing_blank. destruct (rev l) as [|last r] eqn:E; [reflexivity|].
  destruct (is_blank last) eqn:B; [|reflexivity].
  assert (Hl : l = rev r ++ [last]) by (now rewrite <- (rev_involutive l), E).
  subst l. rewrite removelast_last, concat_app, visible_app. simpl concat.
  now rewrite app_nil_r, (visible_blank last B), app_nil_r.
Qed.

(** One round keeps the characters that are not whitespace. *)
Lemma wrap_round_visible (width : Z) (lines : list str) (top : str) (below : list str) :
  visible (concat (fst (wrap_round width lines top below)))
  ++ visible (concat (snd (wrap_round width lines top below)))
  = visible (concat lines) ++ visible (concat (top :: below)).
Proof.
  unfold wrap_round. cbv zeta.
  set (chunks1 := if (is_blank top && truthy lines)%bool then below else top :: below).
  assert (H1 : visible (concat chunks1) = visible (concat (top :: below))).
  { subst chunks1. destruct (is_blank top) eqn:B; [|reflexivity].
    destruct (truthy lines); [|reflexivity]. simpl.
    now rewrite visible_app, (visible_blank top B). }
  rewrite <- H1. clearbody chunks1. clear H1.
  destruct (fill_line (width - len (@nil ascii)) 0 [] chunks1) as [[cl clen] ch] eqn:E.
  apply fill_line_spec in E as (taken & -> & -> & -> & _ & _). cbn [app].
  assert (Hline : forall lc rest,
    visible (concat lc) ++ visible (concat rest) = visible (concat (taken ++ ch)) ->
    visible (concat (fst (if truthy (drop_trailing_blank lc)
                          then lines ++ [[] ++ concat (drop_trailing_blank lc)]
                          else lines, rest)))
    ++ visible (concat (snd (if truthy (drop_trailing_blank lc)
                             then lines ++ [[] ++ concat (drop_trailing_blank lc)]
                             else lines, rest)))
    = visible (concat lines) ++ visible (concat (taken ++ ch))).
  { intros lc rest H. cbn [fst snd app]. rewrite <- H, app_assoc. f_equal.
    rewrite <- (visible_drop_trailing_blank lc).
    destruct (drop_trailing_blank lc) as [|x dl]; cbn [truthy].
    - now rewrite app_nil_r.
    - rewrite concat_app, visible_app. simpl concat. now rewrite app_nil_r. }
  destruct ch as [|c ch'].
  - apply Hline. now rewrite concat_app, visible_app.
  - destruct (len c >? width - len (@nil ascii)).
    + destruct (_handle_long_word_slices c ch' taken (0 + len (concat taken))
                  (width - len (@nil ascii))) as (e & ->).
      apply Hline. rewrite !concat_app, !visible_app. simpl concat.
      rewrite !visible_app, app_nil_r, <- !app_assoc. f_equal.
      rewrite app_assoc, <- visible_app, slice_to_from. reflexivity.
    + apply Hline. now rewrite concat_app, visible_app.
Qed.

Lemma wrap_loop_visible (width : Z) (fuel : nat) :
  forall lines chunks result,
    wrap_loop fuel width lines chunks = Some result ->
    visible (concat result) = visible (concat lines) ++ visible (concat chunks).
Proof.
  induction fuel as [|fuel IH]; intros lines chunks result.
  - destruct chunks; simpl; [|discriminate]. intros [= <-]. now rewrite app_nil_r.
  - destruct chunks as [|top below]; simpl.
    + intros [= <-]. now rewrite app_nil_r.
    + pose proof (wrap_round_visible width lines top below) as Hr.
      destruct (wrap_round width lines top below) as [lines' chunks'].
      cbn [fst snd] in Hr. intros H. apply IH in H. now rewrite H, Hr.
Qed.

Lemma wrap_visible (text : str) (width : Z) (lines : list str) :
  wrap text width = Returned lines -> visible (concat lines) = visible text.
Proof.
  unfold wrap, _wrap_chunks. destruct (width <=? 0); [discriminate|].
  destruct (wrap_loop _ _ _ _) as [r|] eqn:E; [|discriminate]. intros [= <-].
  apply wrap_loop_visible in E. rewrite E. simpl.
  unfold _split_chunks. now rewrite _split_concat, visible__munge_whitespace.
Qed.

Lemma wrap_lines_visible (width : Z) (text : list str) :
  forall text_array result,
    wrap_lines width text text_array = Returned result ->
    visible (concat result) = visible (concat text_array) ++ visible (concat text).
Proof.
  induction text as [|line r IH]; intros acc result; simpl.
  - intros [= <-]. now rewrite app_nil_r.
  - destruct (wrap line width) as [ls| |] eqn:E; try discriminate.
    intros H. apply IH in H. rewrite H, concat_app, !visible_app.
    apply wrap_visible in E. now rewrite E, app_assoc.
Qed.

End VisibleFacts.

(** X19. Wrapping the caption only touches whitespace: the characters of
    the wrapped lines that are not whitespace are those of the caption, all of
    them and in the same order. *)
Theorem wrapped_caption_keeps_text (width : Z) (text : text_arg)
    (text_array : list str) :
  wrap_lines width (text_lines (Some text)) [] = Returned text_array ->
  visible (concat text_array) =
    visible (match text with TextStr s => s | TextList lines => concat lines end).
Proof.
  intros H. apply wrap_lines_visible in H. rewrite H. cbn [concat visible filter app].
  destruct text as [s|lines]; [|reflexivity]. cbn [text_lines].
  rewrite <- visible_join_newline. unfold split.
  now rewrite (join_split_pieces newline s []).
Qed.

Lemma wrapped_caption_keeps_text_witness :
  visible (concat [lit "Lorem"; lit "ipsum"; lit "dolor-"; lit "sit"]) =
    visible (lit "Lorem  ipsum" ++ [newline] ++ lit "dolor-sit ").
Proof.
  apply (wrapped_caption_keeps_text 6
           (TextStr (lit "Lorem  ipsum" ++ [newline] ++ lit "dolor-sit "))).
  vm_compute. reflexivity.
Defined.

(* ====================================================================== *)
(** ** textwrap: no empty line *)
(* ====================================================================== *)

Section NonEmptyFacts.

Variable width : Z.
Hypothesis width_pos : 1 <= width.

Lemma Forall_removelast {A} (P : A -> Prop) (l : list A) :
  Forall P l -> Forall P (removelast l).
Proof.
  induction 1 as [|x l Hx Hl IH]; [constructor|]. simpl.
  destruct l; [constructor | constructor; assumption].
Qed.

Lemma is_blank_nonempty (s : str) : is_blank s = false -> s <> [].
Proof. intros H ->. discriminate H. Qed.

(** The line that a round adds is not empty, as long as the chunks put on
    it, the last one apart, are not. *)
Lemma drop_trailing_blank_nonempty (lc : list str) :
  Forall (fun c : str => c <> []) (removelast lc) ->
  truthy (drop_trailing_blank lc) = true ->
  concat (drop_trailing_blank lc) <> [].
Proof.
  unfold drop_trailing_blank. destruct (rev lc) as [|last r] eqn:E.
  - intros _ Ht H. destruct lc; [discriminate Ht|].
    apply (f_equal (@length str)) in E. rewrite length_rev in E. discriminate E.
  - assert (Hl : lc = rev r ++ [last]) by (now rewrite <- (rev_involutive lc), E).
    subst lc. rewrite removelast_last. intros Hinit.
    destruct (is_blank last) eqn:B.
    + destruct (rev r) as [|x t]; [discriminate|].
      intros _ H. apply Forall_inv in Hinit. simpl in H.
      apply app_eq_nil in H as [H _]. contradiction.
    + intros _ H. rewrite concat_app in H. apply app_eq_nil in H as [_ H].
      simpl in H. rewrite app_nil_r in H. now apply is_blank_nonempty in B.
Qed.

Lemma wrap_round_nonempty (lines : list str) (top : str) (below : list str) :
  Forall (fun c : str => c <> []) lines ->
  Forall (fun c : str => c <> []) (top :: below) ->
  Forall (fun c : str => c <> []) (fst (wrap_round width lines top below))
  /\ Forall (fun c : str => c <> []) (snd (wrap_round width lines top below)).
Proof.
  intros Hlines Hchunks. unfold wrap_round. cbv zeta.
  change (len (@nil ascii)) with 0. rewrite Z.sub_0_r.
  set (chunks1 := if (is_blank top && truthy lines)%bool then below else top :: below).
  assert (H1 : Forall (fun c : str => c <> []) chunks1).
  { subst chunks1. destruct (_ && _)%bool; [now apply Forall_inv_tail in Hchunks|].
    exact Hchunks. }
  clearbody chunks1.
  destruct (fill_line width 0 [] chunks1) as [[cl clen] ch] eqn:E.
  apply fill_line_spec in E as (taken & -> & -> & -> & Hle & Htop).
  cbn [app] in *. specialize (Hle ltac:(lia)).
  apply Forall_app in H1 as [Htaken Hch].
  assert (Hline : forall lc rest,
    Forall (fun c : str => c <> []) (removelast lc) ->
    Forall (fun c : str => c <> []) rest ->
    Forall (fun c : str => c <> [])
      (fst (if truthy (drop_trailing_blank lc)
            then lines ++ [[] ++ concat (drop_trailing_blank lc)] else lines, rest))
    /\ Forall (fun c : str => c <> [])
         (snd (if truthy (drop_trailing_blank lc)
               then lines ++ [[] ++ concat (drop_trailing_blank lc)] else lines, rest))).
  { intros lc rest Hlc Hrest. cbn [fst snd app]. split; [|exact Hrest].
    destruct (truthy (drop_trailing_blank lc)) eqn:T; [|exact Hlines].
    apply Forall_app. split; [exact Hlines|]. constructor; [|constructor].
    now apply drop_trailing_blank_nonempty. }
  pose proof (len_nonneg (concat taken)) as Hnn.
  destruct ch as [|c ch'].
  - apply Hline; [now apply Forall_removelast | constructor].
  - destruct (Z.gtb_spec (len c) width) as [Hlong|Hshort].
    + destruct (_handle_long_word_spec c ch' taken (0 + len (concat taken)) width)
        as (e & -> & He & _); [lia|lia|].
      apply Hline; [now rewrite removelast_last|].
      constructor; [|now apply Forall_inv_tail in Hch].
      intros H. pose proof (length_slice_from e c ltac:(lia)) as Hs.
      rewrite H in Hs. simpl in Hs. lia.
    + apply Hline; [now apply Forall_removelast | exact Hch].
Qed.

Lemma wrap_loop_nonempty (fuel : nat) :
  forall lines chunks result,
    Forall (fun c : str => c <> []) lines ->
    Forall (fun c : str => c <> []) chunks ->
    wrap_loop fuel width lines chunks = Some result ->
    Forall (fun c : str => c <> []) result.
Proof.
  induction fuel as [|fuel IH]; intros lines chunks result Hl Hc.
  - destruct chunks; simpl; [intros [= <-]; exact Hl | discriminate].
  - destruct chunks as [|top below]; simpl; [intros [= <-]; exact Hl|].
    pose proof (wrap_round_nonempty lines top below Hl Hc) as [Hl' Hc'].
    destruct (wrap_round width lines top below) as [lines' chunks'].
    cbn [fst snd] in *. now apply IH.
Qed.

End NonEmptyFacts.

Section NonEmptyWrap.

Lemma wrap_nonempty (text : str) (width : Z) (lines : list str) :
  wrap text width = Returned lines -> Forall (fun line : str => line <> []) lines.
Proof.
  unfold wrap, _wrap_chunks. destruct (Z.leb_spec width 0); [discriminate|].
  destruct (wrap_loop _ _ _ _) as [r|] eqn:E; [|discriminate]. intros [= <-].
  eapply (wrap_loop_nonempty width ltac:(lia)); [| |exact E];
    [constructor | apply _split_nonempty].
Qed.

Lemma wrap_lines_nonempty (width : Z) (text : list str) :
  forall text_array result,
    Forall (fun line : str => line <> []) text_array ->
    wrap_lines width text text_array = Returned result ->
    Forall (fun line : str => line <> []) result.
Proof.
  induction text as [|line r IH]; intros acc result Hacc; simpl.
  - now intros [= <-].
  - destruct (wrap line width) as [ls| |] eqn:E; try discriminate.
    apply IH. apply Forall_app. split; [exact Hacc | now apply wrap_nonempty in E].
Qed.

End NonEmptyWrap.

(** X20. No wrapped caption line is empty, whatever the caption and the
    width. *)
Theorem wrapped_caption_lines_nonempty (width : Z) (text : text_arg)
    (text_array : list str) :
  wrap_lines width (text_lines (Some text)) [] = Returned text_array ->
  Forall (fun line : str => line <> []) text_array.
Proof. intros H. eapply wrap_lines_nonempty; [|exact H]. constructor. Qed.

Lemma wrapped_caption_lines_nonempty_witness :
  Forall (fun line : str => line <> []) [lit "Lorem"; lit "ipsum"].
Proof.
  apply (wrapped_caption_lines_nonempty 40 (TextList [lit "Lorem"; []; lit "   "; lit "ipsum "])).
  vm_compute. reflexivity.
Defined.

(* ====================================================================== *)
(** ** textwrap: a line of whitespace *)
(* ====================================================================== *)

Section BlankLineFacts.

Lemma expandtabs_from_ws (s : str) :
  Forall (fun c => is_ws c = true) s ->
  forall line_pos,
    Forall (fun c => is_ws c = true) (expandtabs_from tabsize line_pos s).
Proof.
  induction 1 as [|c s Hc _ IH]; intros line_pos; simpl; [constructor|].
  destruct (Ascii.eqb c tab).
  - apply Forall_app. split; [|apply IH].
    rewrite mul_space_eq. apply Forall_forall. intros x Hx.
    apply repeat_spec in Hx. now subst x.
  - constructor; [exact Hc | apply IH].
Qed.

Lemma replace_whitespace_ws (s : str) :
  Forall (fun c => is_ws c = true) s ->
  replace_whitespace s = repeat space (length s).
Proof.
  unfold replace_whitespace.
  induction 1 as [|c s Hc _ IH]; simpl; [reflexivity|]. now rewrite Hc, IH.
Qed.

Lemma _munge_whitespace_ws (s : str) :
  Forall (fun c => is_ws c = true) s ->
  exists n, _munge_whitespace s = repeat space n.
Proof.
  intros H. eexists. unfold _munge_whitespace, expandtabs.
  apply replace_whitespace_ws. now apply expandtabs_from_ws.
Qed.

(** A chunk that still takes as many characters as are left takes them all. *)
Lemma split_go_all (rest : str) :
  forall prev cur, split_go prev cur (length rest) rest = flush (rev rest ++ cur).
Proof.
  induction rest as [|c rest IH]; intros prev cur; [reflexivity|].
  simpl. rewrite IH, <- app_assoc. reflexivity.
Qed.

Lemma run_length_spaces (n : nat) : run_length is_ws (repeat space n) = n.
Proof. induction n as [|n IH]; simpl; [reflexivity | now rewrite IH]. Qed.

Lemma rev_repeat {A} (x : A) (n : nat) : rev (repeat x n) = repeat x n.
Proof.
  induction n as [|n IH]; [reflexivity|]. simpl. rewrite IH.
  now rewrite <- repeat_cons.
Qed.

Lemma split_go_spaces (n : nat) (prev cur : str) :
  split_go prev cur n (repeat space n) = flush (repeat space n ++ cur).
Proof.
  pose proof (split_go_all (repeat space n) prev cur) as H.
  rewrite repeat_length, rev_repeat in H. exact H.
Qed.

(** Spaces and nothing else: one chunk, or none. *)
Lemma _split_spaces (n : nat) :
  _split (repeat space n) = match n with O => [] | S _ => [repeat space n] end.
Proof.
  destruct n as [|n]; [reflexivity|]. unfold _split.
  change (repeat space (S n)) with (space :: repeat space n).
  cbn [split_go flush app].
  replace (pred (match_length [] (space :: repeat space n))) with n.
  - rewrite split_go_spaces. unfold flush.
    destruct (repeat space n ++ [space]) as [|x t] eqn:E;
      [now apply app_eq_nil in E as [_ E]|].
    rewrite <- E, rev_app_distr, rev_repeat. reflexivity.
  - unfold match_length. change (is_ws space) with true. cbv iota.
    change (run_length is_ws (space :: repeat space n))
      with (S (run_length is_ws (repeat space n))).
    now rewrite run_length_spaces.
Qed.

Lemma is_blank_spaces (n : nat) : is_blank (repeat space n) = true.
Proof. induction n as [|n IH]; [reflexivity | exact IH]. Qed.

Lemma is_blank_slice_to (e : Z) (s : str) : is_blank s = true -> is_blank (slice_to e s) = true.
Proof.
  unfold slice_to, is_blank. generalize (slice_index e (length s)). intros k. revert s.
  induction k as [|k IH]; intros s H; [reflexivity|].
  destruct s as [|c s]; [reflexivity|]. simpl in *.
  apply andb_prop in H as [-> H]. now apply IH.
Qed.

Lemma is_blank_slice_from (e : Z) (s : str) :
  is_blank s = true -> is_blank (slice_from e s) = true.
Proof.
  unfold slice_from, is_blank. generalize (slice_index e (length s)). intros k. revert s.
  induction k as [|k IH]; intros s H; [exact H|].
  destruct s as [|c s]; [reflexivity|]. simpl in *.
  apply andb_prop in H as [_ H]. now apply IH.
Qed.

(** A single blank chunk at the start of a text gives no line. *)
Lemma wrap_loop_blank (width : Z) (fuel : nat) :
  1 <= width ->
  forall chunk,
    is_blank chunk = true -> (rounds [chunk] <= fuel)%nat ->
    wrap_loop fuel width [] [chunk] = Some [].
Proof.
  intros Hw. induction fuel as [|fuel IH]; intros chunk Hb Hf.
  - rewrite rounds_cons in Hf. lia.
  - cbn [wrap_loop]. unfold wrap_round. cbv zeta. rewrite andb_false_r.
    change (len (@nil ascii)) with 0. rewrite Z.sub_0_r. cbn [fill_line].
    rewrite Z.add_0_l. destruct (Z.leb_spec (len chunk) width) as [Hfit|Hlong].
    + cbn [fill_line app]. unfold drop_trailing_blank. cbn [rev app].
      rewrite Hb. cbn [removelast truthy]. now destruct fuel.
    + destruct (Z.gtb_spec (len chunk) width); [|lia].
      destruct (_handle_long_word_spec chunk [] [] 0 width Hw ltac:(lia))
        as (e & -> & He & He1). specialize (He1 ltac:(lia)).
      cbn [app]. unfold drop_trailing_blank. cbn [rev app].
      rewrite is_blank_slice_to by exact Hb. cbn [removelast truthy].
      apply IH; [now apply is_blank_slice_from|].
      rewrite rounds_cons in *. unfold rounds in *. cbn [length concat app] in *.
      pose proof (length_slice_from e chunk ltac:(lia)) as Hs. unfold len in *. lia.
Qed.

Lemma wrap_ws (line : str) (width : Z) :
  Forall (fun c => is_ws c = true) line -> 0 < width ->
  wrap line width = Returned [].
Proof.
  intros Hline Hw. unfold wrap, _split_chunks, _wrap_chunks.
  destruct (Z.leb_spec width 0); [lia|].
  destruct (_munge_whitespace_ws line Hline) as [n ->]. rewrite _split_spaces.
  destruct n as [|n]; [reflexivity|].
  rewrite wrap_loop_blank;
    [reflexivity | lia | apply (is_blank_spaces (S n)) | apply le_n].
Qed.

End BlankLineFacts.

(** X21. A caption line that holds nothing but whitespace (spaces, tabs,
    line feeds, vertical tabs, form feeds, carriage returns), the empty line
    included, gives no row: the wrap step goes on as if the line were not
    there. *)
Theorem blank_caption_line_skipped (width : Z) (line : str)
    (others text_array : list str) :
  0 < width ->
  Forall (fun c => is_ws c = true) line ->
  wrap_lines width (line :: others) text_array = wrap_lines width others text_array.
Proof.
  intros Hw Hline. cbn [wrap_lines]. rewrite wrap_ws by assumption.
  now rewrite app_nil_r.
Qed.

Lemma blank_caption_line_skipped_witness :
  wrap_lines 40 ([space; tab; space] :: [lit "ipsum"]) []
  = wrap_lines 40 [lit "ipsum"] [].
Proof.
  apply blank_caption_line_skipped; [lia|].
  repeat constructor.
Defined.
